(** * Timeline slicer: the range-selection engine of [TimelineSlicer.tsx]

    The development is a shallow embedding of the date arithmetic, the range
    normaliser, the drag handlers and the granularity switch of
    [src/components/TimelineSlicer.tsx].

    - A JavaScript [Date] is its time value: an integer number of
      milliseconds since 1970-01-01T00:00Z.  Time values are unbounded
      integers here: the Invalid Date (NaN) and the limit of 8.64e15 ms that
      [TimeClip] enforces are outside the model.
    - The calendar getters and the constructor [new Date(y, m, d)] follow the
      abstract operations of ECMA-262, section 21.4.1 (Day, DayFromYear,
      YearFromTime, MonthFromTime, DateFromTime, MakeDay, MakeDate,
      MakeFullYear), in the proleptic Gregorian calendar.
    - The local time zone is a fixed offset [LocalTZA] from UTC (no daylight
      saving transitions).  The general results hold for every offset; the
      concrete runs at the end take UTC.
    - A JavaScript Number is an IEEE 754 double.  The Numbers computed here
      (the window of the band drag, the percentages of [toPct] and
      [fromPct]) are rationals, and every arithmetic operation rounds its
      exact result to the nearest double, ties to even ([Number.binary64]).
      The exponent range of a double (about 1e-308 to 1e308) is never
      reached by these values and is outside the model.
    - [pointerToPct] reads the layout of the track from the DOM and is not
      modelled: a pointer event carries the date that
      [fromPct(pointerToPct(e.clientX))] returns for it.
    - A call [f(...args)] with more arguments than the engine accepts throws
      a RangeError; the limit is the engine's own and is a parameter
      ([argumentLimit]). *)

From Stdlib Require Import ZArith Lia Bool List QArith Qround Qabs Qpower Lqa.
From Stdlib Require Import Ascii String DecimalString DecimalZ Sorted.
Import ListNotations.

Local Open Scope Z_scope.

(** ** ECMA-262 Date arithmetic (section 21.4.1) *)

Module ECMA.

Definition msPerDay : Z := 86400000.

(** [Day(t) = floor(t / msPerDay)]; [Z.div] rounds towards minus infinity. *)
Definition Day (t : Z) : Z := t / msPerDay.

Definition TimeWithinDay (t : Z) : Z := t mod msPerDay.

Definition DaysInYear (y : Z) : Z :=
  if negb (y mod 4 =? 0) then 365
  else if negb (y mod 100 =? 0) then 366
  else if negb (y mod 400 =? 0) then 365
  else 366.

Definition DayFromYear (y : Z) : Z :=
  365 * (y - 1970) + (y - 1969) / 4 - (y - 1901) / 100 + (y - 1601) / 400.

Definition TimeFromYear (y : Z) : Z := msPerDay * DayFromYear y.

(** ECMA-262 specifies [YearFromTime(t)] as the largest integer [y] with
    [TimeFromYear(y) <= t].  The executable version estimates the year from
    the mean year length (146097 days in 400 years) and adjusts by one;
    [YearFromDay_spec] and [YearFromDay_unique] show that it computes the
    year ECMA-262 specifies. *)
Definition YearFromDay (n : Z) : Z :=
  let y0 := 1970 + (400 * n) / 146097 in
  if DayFromYear (y0 + 1) <=? n then y0 + 1
  else if DayFromYear y0 <=? n then y0
  else y0 - 1.

Definition YearFromTime (t : Z) : Z := YearFromDay (Day t).

(** [InLeapYear(t)] is 1 in a leap year and 0 otherwise. *)
Definition LeapOfYear (y : Z) : Z := if DaysInYear y =? 366 then 1 else 0.

Definition InLeapYear (t : Z) : Z := LeapOfYear (YearFromTime t).

Definition DayWithinYear (t : Z) : Z := Day t - DayFromYear (YearFromTime t).

(** Number of days of the year before the first day of month [m] (0-based),
    the thresholds of the table of [MonthFromTime]. *)
Definition DaysBeforeMonth (m leap : Z) : Z :=
  if m <=? 0 then 0
  else if m =? 1 then 31
  else if m =? 2 then 59 + leap
  else if m =? 3 then 90 + leap
  else if m =? 4 then 120 + leap
  else if m =? 5 then 151 + leap
  else if m =? 6 then 181 + leap
  else if m =? 7 then 212 + leap
  else if m =? 8 then 243 + leap
  else if m =? 9 then 273 + leap
  else if m =? 10 then 304 + leap
  else if m =? 11 then 334 + leap
  else 365 + leap.

Definition MonthOfYearDay (dwy leap : Z) : Z :=
  if dwy <? 31 then 0
  else if dwy <? 59 + leap then 1
  else if dwy <? 90 + leap then 2
  else if dwy <? 120 + leap then 3
  else if dwy <? 151 + leap then 4
  else if dwy <? 181 + leap then 5
  else if dwy <? 212 + leap then 6
  else if dwy <? 243 + leap then 7
  else if dwy <? 273 + leap then 8
  else if dwy <? 304 + leap then 9
  else if dwy <? 334 + leap then 10
  else 11.

Definition MonthFromTime (t : Z) : Z :=
  MonthOfYearDay (DayWithinYear t) (InLeapYear t).

Definition DateFromTime (t : Z) : Z :=
  DayWithinYear t
  - DaysBeforeMonth (MonthFromTime t) (InLeapYear t) + 1.

(** [MakeDay(year, month, date)]: the day number of the first of month
    [month mod 12] of year [year + floor(month / 12)], plus [date - 1]. *)
Definition MakeDay (year month date : Z) : Z :=
  let ym := year + month / 12 in
  let mn := month mod 12 in
  DayFromYear ym + DaysBeforeMonth mn (LeapOfYear ym) + date - 1.

Definition MakeDate (day time : Z) : Z := day * msPerDay + time.

(** [MakeFullYear(year)]: the legacy rule of the [Date] constructor and of
    [Date.UTC]: a year from 0 to 99 stands for 1900 to 1999. *)
Definition MakeFullYear (year : Z) : Z :=
  if (0 <=? year) && (year <=? 99) then 1900 + year else year.

(** [ToIntegerOrInfinity(x)] truncates a number towards zero. *)
Definition ToIntegerOrInfinity (x : Q) : Z :=
  if Qle_bool 0 x then Qfloor x else Qceiling x.

(** [TimeClip(time)], without its range check (see the header). *)
Definition TimeClip (time : Q) : Z := ToIntegerOrInfinity time.

End ECMA.

Import ECMA.

(** ** Numbers: IEEE 754 binary64 arithmetic (ECMA-262, section 6.1.6.1)

    A Number is the rational it stands for.  [binary64 x] is the double
    nearest to the rational [x]: [x] is scaled to a significand of 53 bits,
    which is rounded to the nearest integer, to the even one on a tie.  The
    four operations compute the exact result and round it once, as IEEE 754
    prescribes. *)

Module Number.

(** [floor(log2 |x|)] for a rational [x <> 0]. *)
Definition ilog2 (x : Q) : Z :=
  let k := Z.log2 (Z.abs (Qnum x)) - Z.log2 (Zpos (Qden x)) in
  if Qle_bool (2 ^ k) (Qabs x) then k else k - 1.

(** The integer nearest to [x], the even one of the two when [x] lies half
    way between two integers. *)
Definition roundTiesToEven (x : Q) : Z :=
  let f := Qfloor x in
  match (x - inject_Z f ?= 1 # 2)%Q with
  | Lt => f
  | Gt => f + 1
  | Eq => if Z.even f then f else f + 1
  end.

Definition binary64 (x : Q) : Q :=
  let x := Qred x in
  if Qeq_bool x 0 then 0%Q
  else
    let e := ilog2 x - 52 in
    Qred (inject_Z (roundTiesToEven (x / 2 ^ e)) * 2 ^ e).

Definition add (x y : Q) : Q := binary64 (x + y).

Definition subtract (x y : Q) : Q := binary64 (x - y).

Definition multiply (x y : Q) : Q := binary64 (x * y).

Definition divide (x y : Q) : Q := binary64 (x / y).

End Number.


(** ** The [Date] objects the component uses *)

Definition Date : Type := Z.

Definition getTime (d : Date) : Z := d.

(** [new Date(x)] for a number [x]. *)
Definition Date_of_number (x : Q) : Date := TimeClip x.

(** [d.getTime()] as a Number: a time value is an integer of at most
    8.64e15 in magnitude, and such an integer is a double as it is. *)
Definition timeOf (d : Date) : Q := inject_Z (getTime d).

(** [a < b] on numbers. *)
Definition Qltb (a b : Q) : bool := negb (Qle_bool b a).

(** ** Types of the component *)

Record DateRange : Type := { start : Date; end_ : Date }.

Inductive Granularity : Type := day | month | quarter | year.

(** The value of the [dragging] ref when it is not [null]. *)
Inductive DragTarget : Type := DragStart | DragEnd | DragRange.

Section Host.

(** Offset of local time from UTC, in milliseconds. *)
Variable LocalTZA : Z.

Definition LocalTime (t : Z) : Z := t + LocalTZA.

Definition UTC (t : Z) : Z := t - LocalTZA.

Definition getFullYear (d : Date) : Z := YearFromTime (LocalTime d).

Definition getMonth (d : Date) : Z := MonthFromTime (LocalTime d).

Definition getDate (d : Date) : Z := DateFromTime (LocalTime d).

(** [new Date(y, m, dt)]: local midnight of the given calendar day, the year
    going through [MakeFullYear]. *)
Definition newDate (y m dt : Z) : Date :=
  UTC (MakeDate (MakeDay (MakeFullYear y) m dt) 0).

(** *** [dateUtils] (TimelineSlicer.tsx, lines 101-153) *)

Definition clampDate (d minD maxD : Date) : Date :=
  if d <? minD then minD
  else if d >? maxD then maxD
  else d.

Definition floorToGranularity (d : Date) (g : Granularity) : Date :=
  match g with
  | day => newDate (getFullYear d) (getMonth d) (getDate d)
  | month => newDate (getFullYear d) (getMonth d) 1
  | quarter =>
      let q := (getMonth d / 3) * 3 in
      newDate (getFullYear d) q 1
  | year => newDate (getFullYear d) 0 1
  end.

Definition ceilToGranularity (d : Date) (g : Granularity) : Date :=
  let floored := floorToGranularity d g in
  if getTime floored =? getTime d then d
  else
    match g with
    | day => newDate (getFullYear d) (getMonth d) (getDate d + 1)
    | month => newDate (getFullYear floored) (getMonth floored + 1) 1
    | quarter => newDate (getFullYear floored) (getMonth floored + 3) 1
    | year => newDate (getFullYear floored + 1) 0 1
    end.

(** *** The component [TimelineSlicer] (lines 85-296): the props [min],
    [max], [value], [snap] and the state [granularity] are the variables its
    closures capture. *)

Section TimelineSlicer.

Variables min max : Date.
Variable value : option DateRange.
Variable snap : bool.
Variable granularity : Granularity.

(** [const range = value || { start: min, end: max }] *)
Definition range : DateRange :=
  match value with
  | Some r => r
  | None => {| start := min; end_ := max |}
  end.

(** Lines 155-168. *)
Definition normalizedRange : DateRange :=
  (* [new Date(range.start)] copies the date: the same time value *)
  let s := clampDate (start range) min max in
  let e := clampDate (end_ range) min max in
  let '(s, e) := if getTime s >? getTime e then (e, s) else (s, e) in
  let '(s, e) :=
    if snap then
      let s := floorToGranularity s granularity in
      let e := ceilToGranularity e granularity in
      let s := clampDate s min max in
      let e := clampDate e min max in
      (s, e)
    else (s, e) in
  {| start := s; end_ := e |}.

(** [const total = Math.max(1, max.getTime() - min.getTime())] (line 177). *)
Definition total : Q :=
  let width := Number.subtract (timeOf max) (timeOf min) in
  if Qltb 1 width then width else 1%Q.

(** [toPct] (lines 178-181): [(100 * (d.getTime() - min.getTime())) / total]. *)
Definition toPct (d : Date) : Q :=
  Number.divide
    (Number.multiply 100 (Number.subtract (timeOf d) (timeOf min)))
    total.

(** [fromPct] (lines 183-186):
    [new Date(min.getTime() + (pct / 100) * total)]. *)
Definition fromPct (pct : Q) : Date :=
  Date_of_number
    (Number.add (timeOf min) (Number.multiply (Number.divide pct 100) total)).

(** [commitDrag] (lines 195-219) returns the range it hands to [setRange],
    that is to [onChange]. *)
Definition commitDrag (newStart newEnd : Date) : DateRange :=
  (* [new Date(newStart.getTime())]: a copy with the same time value *)
  let s := getTime newStart in
  let e := getTime newEnd in
  let '(s, e) := if getTime s >? getTime e then (e, s) else (s, e) in
  let '(s, e) :=
    if snap then
      (floorToGranularity s granularity, ceilToGranularity e granularity)
    else (s, e) in
  let s := clampDate s min max in
  let e := clampDate e min max in
  let '(s, e) := if getTime s >? getTime e then (e, s) else (s, e) in
  {| start := s; end_ := e |}.

(** The window of the band drag before it is committed (lines 249-265):
    the current span centred on the pointer's date, pushed back inside the
    bounds.  Each operation is one operation on doubles. *)
Definition slideWindow (dateAt : Date) : Q * Q :=
  let span :=
    Number.subtract (timeOf (end_ normalizedRange))
      (timeOf (start normalizedRange)) in
  let minTime := timeOf min in
  let maxTime := timeOf max in
  let center := timeOf dateAt in
  let s := Number.subtract center (Number.divide span 2) in
  let e2 := Number.add center (Number.divide span 2) in
  let '(s, e2) :=
    if Qltb s minTime
    then (minTime, Number.add e2 (Number.subtract minTime s))
    else (s, e2) in
  let '(s, e2) :=
    if Qltb maxTime e2
    then (Number.subtract s (Number.subtract e2 maxTime), maxTime)
    else (s, e2) in
  (s, e2).

(** The body of the animation-frame callback of [onPointerMove] (lines
    240-269), for the target [which] read from the [dragging] ref when the
    frame runs.
    [dateAt] is [fromPct(pointerToPct(e.clientX))], the date under the
    pointer: [pointerToPct] reads the track's rectangle and is not modelled,
    the handlers are stated for every date that [fromPct] can return. *)
Definition onPointerMove_frame (which : DragTarget) (dateAt : Date)
  : DateRange :=
  match which with
  | DragStart => commitDrag dateAt (end_ normalizedRange)
  | DragEnd => commitDrag (start normalizedRange) dateAt
  | DragRange =>
      let '(s, e2) := slideWindow dateAt in
      commitDrag (Date_of_number s) (Date_of_number e2)
  end.

(** [handleGranularityChange] (lines 283-296): the new state of
    [granularity] and the range handed to [setRange]. *)
Definition handleGranularityChange (newGranularity : Granularity)
  : Granularity * DateRange :=
  let s := floorToGranularity (start normalizedRange) newGranularity in
  let e := ceilToGranularity (end_ normalizedRange) newGranularity in
  (newGranularity,
   {| start := clampDate s min max; end_ := clampDate e min max |}).

End TimelineSlicer.

(** *** The normaliser as section 4.2 of the specification words it

    Steps 1 to 3 of the contract [normalize(raw, bounds, granularity, snap)],
    written from the specification and not from the code; it is compared
    with [normalizedRange] and [commitDrag] below. *)
Definition normalize_spec (raw : DateRange) (min max : Date)
  (g : Granularity) (snap : bool) : DateRange :=
  (* 1. clamp both ends independently *)
  let s := clampDate (start raw) min max in
  let e := clampDate (end_ raw) min max in
  (* 2. if start > end, swap *)
  let '(s, e) := if s >? e then (e, s) else (s, e) in
  (* 3. if snap: floor start, ceil end, re-clamp, re-swap *)
  if snap then
    let s := clampDate (floorToGranularity s g) min max in
    let e := clampDate (ceilToGranularity e g) min max in
    let '(s, e) := if s >? e then (e, s) else (s, e) in
    {| start := s; end_ := e |}
  else {| start := s; end_ := e |}.

(** *** A selection session: the component mounted by [SigmaTimelinePlugin]

    The plugin passes [value={dateRange}] and [onChange={setDateRange}], so
    a committed range becomes the next [value].  Events are handled one at a
    time (the page is single-threaded); [AnimationFrame] is the browser
    running the callback registered by [requestAnimationFrame], if one is
    still pending. *)

(** The callback registered by [onPointerMove]: the event it closes over
    (through the date under the pointer) and the render it was created in
    (through that render's [value] and [granularity]). *)
Record Frame : Type :=
  { frame_dateAt : Date;
    frame_value : DateRange;
    frame_granularity : Granularity }.

Record Session : Type :=
  { dateRange : DateRange;
    granularity : Granularity;
    dragging : option DragTarget;
    raf : option Frame }.

Inductive Event : Type :=
| PointerDown (which : DragTarget)
| PointerMove (dateAt : Date)
| PointerUp
| AnimationFrame
| GranularityClick (g : Granularity).

Section Session.

Variables min max : Date.
Variable snap : bool.

(** One event: the next state and the range passed to [onChange], if any
    ([onPointerDown], [onPointerMove], [onPointerUp], lines 229-275). *)
Definition step (s : Session) (ev : Event) : Session * option DateRange :=
  match ev with
  | PointerDown which =>
      ({| dateRange := dateRange s; granularity := granularity s;
          dragging := Some which; raf := raf s |}, None)
  | PointerMove dateAt =>
      match dragging s with
      | None => (s, None)
      | Some _ =>
          (* a pending callback is cancelled and replaced *)
          ({| dateRange := dateRange s; granularity := granularity s;
              dragging := dragging s;
              raf := Some {| frame_dateAt := dateAt;
                             frame_value := dateRange s;
                             frame_granularity := granularity s |} |}, None)
      end
  | PointerUp =>
      ({| dateRange := dateRange s; granularity := granularity s;
          dragging := None; raf := raf s |}, None)
  | AnimationFrame =>
      match raf s with
      | None => (s, None)
      | Some f =>
          match dragging s with
          | None =>
              ({| dateRange := dateRange s; granularity := granularity s;
                  dragging := None; raf := None |}, None)
          | Some which =>
              let r :=
                onPointerMove_frame min max (Some (frame_value f)) snap
                  (frame_granularity f) which (frame_dateAt f) in
              ({| dateRange := r; granularity := granularity s;
                  dragging := dragging s; raf := None |}, Some r)
          end
      end
  | GranularityClick g =>
      let '(g', r) :=
        handleGranularityChange min max (Some (dateRange s)) snap
          (granularity s) g in
      ({| dateRange := r; granularity := g';
          dragging := dragging s; raf := raf s |}, Some r)
  end.

(** A sequence of events: the final state and the ranges passed to
    [onChange], oldest first. *)
Fixpoint run (s : Session) (evs : list Event) : Session * list DateRange :=
  match evs with
  | [] => (s, [])
  | ev :: evs' =>
      let '(s1, out) := step s ev in
      let '(s2, outs) := run s1 evs' in
      (s2, match out with Some r => r :: outs | None => outs end)
  end.

End Session.

(** *** Properties of ranges and dates *)

Definition in_bounds (min max : Date) (r : DateRange) : Prop :=
  min <= start r /\ start r <= end_ r /\ end_ r <= max.

(** A date on a boundary of granularity [g]: a fixed point of the floor. *)
Definition on_boundary (d : Date) (g : Granularity) : Prop :=
  floorToGranularity d g = d.

(** An endpoint as snapping leaves it: on a boundary, or on a bound. *)
Definition snapped (min max : Date) (g : Granularity) (d : Date) : Prop :=
  on_boundary d g \/ d = min \/ d = max.

(** A year the [Date] constructor takes as it is. *)
Definition literal_year (y : Z) : Prop := y < 0 \/ 99 < y.

(** Bounds between which every date has a literal year. *)
Definition literal_years (min max : Date) : Prop :=
  getFullYear max < 0 \/ 99 < getFullYear min.

(** The local day number of a date. *)
Definition localDayOf (d : Date) : Z := Day (LocalTime d).

(** Local midnight of a calendar day, the year taken as it is written
    (what [setFullYear(y, m, dt)] sets, whatever the year). *)
Definition localMidnight (y m dt : Z) : Date :=
  UTC (MakeDate (MakeDay y m dt) 0).

(** The calendar period of granularity [g] that holds day number [n]: the
    day number of its first day, and of the first day of the next period. *)
Definition periodStart (g : Granularity) (n : Z) : Z :=
  let y := YearFromDay n in
  let m := MonthOfYearDay (n - DayFromYear y) (LeapOfYear y) in
  match g with
  | day => n
  | month => MakeDay y m 1
  | quarter => MakeDay y (m / 3 * 3) 1
  | year => MakeDay y 0 1
  end.

Definition periodNext (g : Granularity) (n : Z) : Z :=
  let y := YearFromDay n in
  let m := MonthOfYearDay (n - DayFromYear y) (LeapOfYear y) in
  match g with
  | day => n + 1
  | month => MakeDay y (m + 1) 1
  | quarter => MakeDay y (m / 3 * 3 + 3) 1
  | year => MakeDay y 12 1
  end.

(** *** The rest of [dateUtils] (lines 107-114 and 139-152) *)

Definition startOfDay (d : Date) : Date :=
  newDate (getFullYear d) (getMonth d) (getDate d).

Definition startOfMonth (d : Date) : Date :=
  newDate (getFullYear d) (getMonth d) 1.

Definition startOfQuarter (d : Date) : Date :=
  let quarter_ := getMonth d / 3 in
  newDate (getFullYear d) (quarter_ * 3) 1.

Definition startOfYear (d : Date) : Date := newDate (getFullYear d) 0 1.

(** [String(n)] and [n.toString()] for an integer [n] (below 1e21 in
    absolute value, where JavaScript still prints every digit). *)
Definition toString (n : Z) : string := NilZero.string_of_int (Z.to_int n).

(** [s.padStart(2, "0")] *)
Definition padStart2 (s : string) : string :=
  match String.length s with
  | O => "00"
  | S O => String "0" s
  | _ => s
  end.

Definition formatShort (d : Date) (g : Granularity) : string :=
  let y := getFullYear d in
  let mm := padStart2 (toString (getMonth d + 1)) in
  let dd := padStart2 (toString (getDate d)) in
  match g with
  | day => (toString y ++ "-" ++ mm ++ "-" ++ dd)%string
  | month => (toString y ++ "-" ++ mm)%string
  | quarter =>
      let q := getMonth d / 3 + 1 in
      (toString y ++ " Q" ++ toString q)%string
  | year => toString y
  end.

(** *** The stripes (lines 298-347)

    The loop of the [stripes] memo draws one stripe per iteration, keyed by
    [current.getTime()]; the model keeps these dates (the [left] percentage
    of a stripe is [toPct] of its date).  [stripesLoop] is the [while] loop with
    a bound on the number of iterations, and [stripes] runs it with the
    bound [stripesFuel], which [stripes_terminate] shows to be enough. *)

Definition nextStripe (current : Date) (g : Granularity) : Date :=
  match g with
  | month => newDate (getFullYear current) (getMonth current + 1) 1
  | quarter => newDate (getFullYear current) (getMonth current + 3) 1
  | year => newDate (getFullYear current + 1) 0 1
  | day => newDate (getFullYear current) (getMonth current) (getDate current + 1)
  end.

Fixpoint stripesLoop (fuel : nat) (current max : Date) (g : Granularity)
  : list Date :=
  match fuel with
  | O => []
  | S fuel' =>
      if current <=? max
      then current :: stripesLoop fuel' (nextStripe current g) max g
      else []
  end.

Definition stripesFuel (current max : Date) : nat :=
  Z.to_nat (localDayOf max - localDayOf current + 1).

Definition stripes (min max : Date) (g : Granularity) : list Date :=
  let current := floorToGranularity min g in
  stripesLoop (stripesFuel current max) current max g.

(** *** [SigmaTimelinePlugin] (lines 499-569)

    A cell of the configured column is whatever the host delivers; [toDate]
    is the time value of [new Date(cell)], and [None] when that is an
    Invalid Date.  [col] is the result of [getColumnArray(sigmaData,
    dateColumnId)], [None] for [null].

    [argumentLimit] is the largest number of arguments the engine accepts in
    one call.  ECMA-262 sets no limit; every engine has one (some tens or
    hundreds of thousands, depending on the engine and on its stack), and a
    spread call [f(...xs)] beyond it throws a RangeError.  A result of type
    [option] is [None] for that exception. *)

Section Plugin.

Variable Cell : Type.
Variable toDate : Cell -> option Date.
Variable argumentLimit : Z.

(** [col.map((d) => new Date(d)).filter((d) => ... !isNaN(d.getTime()))] *)
Fixpoint validDates (col : list Cell) : list Date :=
  match col with
  | [] => []
  | c :: rest =>
      match toDate c with
      | Some d => d :: validDates rest
      | None => validDates rest
      end
  end.

(** The array [dates] of the memo of lines 517-535, empty when there is no
    column. *)
Definition spreadDates (col : option (list Cell)) : list Date :=
  match col with
  | Some cells => validDates cells
  | None => []
  end.

(** [Math.min(...args)] and [Math.max(...args)] for the arguments
    [x :: xs]: the least and the greatest argument, or the RangeError of a
    call with too many arguments. *)
Definition Math_min (x : Z) (xs : list Z) : option Z :=
  if Z.of_nat (List.length (x :: xs)) <=? argumentLimit
  then Some (fold_left Z.min xs x)
  else None.

Definition Math_max (x : Z) (xs : list Z) : option Z :=
  if Z.of_nat (List.length (x :: xs)) <=? argumentLimit
  then Some (fold_left Z.max xs x)
  else None.

(** The memo of lines 517-535: [(minDate, maxDate)], or the RangeError that
    [Math.min(...)] throws (line 532) and that ends the render. *)
Definition minMaxDates (col : option (list Cell)) : option (Date * Date) :=
  let fallback := Some (newDate 2024 0 1, newDate 2024 11 31) in
  match col with
  | None => fallback
  | Some [] => fallback
  | Some cells =>
      match validDates cells with
      | [] => fallback
      | d :: ds =>
          match Math_min d ds with
          | None => None
          | Some minTime =>
              match Math_max d ds with
              | None => None
              | Some maxTime => Some (minTime, maxTime)
              end
          end
      end
  end.

(** The state updater of the effect of lines 543-555, run when the bounds
    change. *)
Definition reclampRange (prev : DateRange) (minDate maxDate : Date)
  : DateRange :=
  let start' :=
    if start prev <? minDate then minDate
    else if start prev >? maxDate then minDate
    else start prev in
  let end' :=
    if end_ prev >? maxDate then maxDate
    else if end_ prev <? minDate then maxDate
    else end_ prev in
  {| start := start'; end_ := end' |}.

(** The loop of lines 562-567, from row [i] on. *)
Fixpoint filterRows (i : nat) (cells : list Cell) (r : DateRange)
  : list nat :=
  match cells with
  | [] => []
  | c :: rest =>
      match toDate c with
      | Some d =>
          if (d >=? start r) && (d <=? end_ r)
          then i :: filterRows (S i) rest r
          else filterRows (S i) rest r
      | None => filterRows (S i) rest r
      end
  end.

Definition filteredData (col : option (list Cell)) (r : DateRange)
  : list nat :=
  match col with
  | None => []
  | Some cells => filterRows 0 cells r
  end.

Definition totalCount (col : option (list Cell)) : nat :=
  match col with
  | None => O
  | Some cells => List.length cells
  end.

End Plugin.

Arguments validDates {Cell} toDate col.
Arguments spreadDates {Cell} toDate col.
Arguments minMaxDates {Cell} toDate argumentLimit col.
Arguments filterRows {Cell} toDate i cells r.
Arguments filteredData {Cell} toDate col r.
Arguments totalCount {Cell} col.

(** ** Calendar facts *)

(** Linear arithmetic with the divisions and remainders spelled out. *)
Ltac zdiv := Z.div_mod_to_equations; lia.

Lemma DayFromYear_succ (y : Z) :
  DayFromYear (y + 1) = DayFromYear y + DaysInYear y.
Proof.
  unfold DayFromYear, DaysInYear.
  destruct (Z.eqb_spec (y mod 4) 0), (Z.eqb_spec (y mod 100) 0),
    (Z.eqb_spec (y mod 400) 0); cbn [negb]; zdiv.
Qed.

Lemma DayFromYear_lt (y1 y2 : Z) :
  y1 < y2 -> DayFromYear y1 + 365 <= DayFromYear y2.
Proof. unfold DayFromYear. intros. zdiv. Qed.

Lemma DayFromYear_le (y1 y2 : Z) :
  y1 <= y2 -> DayFromYear y1 <= DayFromYear y2.
Proof.
  intros H. destruct (Z.eq_dec y1 y2) as [->|Hne]; [lia|].
  pose proof (DayFromYear_lt y1 y2). lia.
Qed.

Lemma YearFromDay_spec (n : Z) :
  DayFromYear (YearFromDay n) <= n < DayFromYear (YearFromDay n + 1).
Proof.
  unfold YearFromDay.
  set (y0 := 1970 + 400 * n / 146097).
  destruct (Z.leb_spec (DayFromYear (y0 + 1)) n) as [H1|H1].
  - split; [exact H1|]. unfold DayFromYear in *. subst y0. zdiv.
  - destruct (Z.leb_spec (DayFromYear y0) n) as [H0|H0].
    + split; assumption.
    + replace (y0 - 1 + 1) with y0 by lia. split; [|exact H0].
      unfold DayFromYear in *. subst y0. zdiv.
Qed.

(** [YearFromDay n] is the only year whose days include [n]: it is the
    largest [y] with [DayFromYear y <= n], as ECMA-262 asks. *)
Lemma YearFromDay_unique (n y : Z) :
  DayFromYear y <= n < DayFromYear (y + 1) -> YearFromDay n = y.
Proof.
  intros [Hlo Hhi]. pose proof (YearFromDay_spec n) as [Slo Shi].
  destruct (Z.lt_trichotomy (YearFromDay n) y) as [Hlt|[Heq|Hgt]]; [|exact Heq|].
  - pose proof (DayFromYear_le (YearFromDay n + 1) y). lia.
  - pose proof (DayFromYear_le (y + 1) (YearFromDay n)). lia.
Qed.

Lemma YearFromDay_mono (n1 n2 : Z) :
  n1 <= n2 -> YearFromDay n1 <= YearFromDay n2.
Proof.
  intros H. pose proof (YearFromDay_spec n1) as [L1 U1].
  pose proof (YearFromDay_spec n2) as [L2 U2].
  destruct (Z.le_gt_cases (YearFromDay n1) (YearFromDay n2)) as [Hle|Hgt];
    [exact Hle|].
  pose proof (DayFromYear_le (YearFromDay n2 + 1) (YearFromDay n1)). lia.
Qed.

Lemma LeapOfYear_range (y : Z) : LeapOfYear y = 0 \/ LeapOfYear y = 1.
Proof. unfold LeapOfYear. destruct (DaysInYear y =? 366); auto. Qed.

Lemma DaysInYear_leap (y : Z) : DaysInYear y = 365 + LeapOfYear y.
Proof.
  unfold LeapOfYear, DaysInYear.
  destruct (y mod 4 =? 0), (y mod 100 =? 0), (y mod 400 =? 0); reflexivity.
Qed.

Lemma DayWithinYear_range (n : Z) :
  0 <= n - DayFromYear (YearFromDay n) < 365 + LeapOfYear (YearFromDay n).
Proof.
  pose proof (YearFromDay_spec n) as [L U].
  rewrite DayFromYear_succ, DaysInYear_leap in U. lia.
Qed.

Lemma Day_mul (n : Z) : Day (n * msPerDay) = n.
Proof. unfold Day, msPerDay. zdiv. Qed.

Lemma Day_spec (t : Z) : Day t * msPerDay <= t < (Day t + 1) * msPerDay.
Proof. unfold Day, msPerDay. zdiv. Qed.

Lemma Day_mono (t1 t2 : Z) : t1 <= t2 -> Day t1 <= Day t2.
Proof. unfold Day, msPerDay. intros. zdiv. Qed.

Lemma Day_lt_iff (t n : Z) : Day t < n <-> t < n * msPerDay.
Proof. unfold Day, msPerDay. split; intros; zdiv. Qed.

Lemma Day_ge_iff (t n : Z) : n <= Day t <-> n * msPerDay <= t.
Proof. unfold Day, msPerDay. split; intros; zdiv. Qed.

(** The month table. *)

Ltac month_cases m :=
  assert (m = 0 \/ m = 1 \/ m = 2 \/ m = 3 \/ m = 4 \/ m = 5 \/ m = 6
          \/ m = 7 \/ m = 8 \/ m = 9 \/ m = 10 \/ m = 11) by lia.

Lemma MonthOfYearDay_range (w l : Z) : 0 <= MonthOfYearDay w l <= 11.
Proof.
  unfold MonthOfYearDay.
  repeat match goal with |- context [if ?b then _ else _] => destruct b end;
    lia.
Qed.

Lemma DaysBeforeMonth_table (l : Z) :
  DaysBeforeMonth 0 l = 0 /\ DaysBeforeMonth 1 l = 31
  /\ DaysBeforeMonth 2 l = 59 + l /\ DaysBeforeMonth 3 l = 90 + l
  /\ DaysBeforeMonth 4 l = 120 + l /\ DaysBeforeMonth 5 l = 151 + l
  /\ DaysBeforeMonth 6 l = 181 + l /\ DaysBeforeMonth 7 l = 212 + l
  /\ DaysBeforeMonth 8 l = 243 + l /\ DaysBeforeMonth 9 l = 273 + l
  /\ DaysBeforeMonth 10 l = 304 + l /\ DaysBeforeMonth 11 l = 334 + l
  /\ DaysBeforeMonth 12 l = 365 + l.
Proof. repeat split. Qed.

(** Replaces [DaysBeforeMonth k l], for a literal month [k], by its entry. *)
Ltac dbm_entry k l :=
  let v := eval vm_compute in k in
  lazymatch v with
  | 0 => constr:(0)
  | 1 => constr:(31)
  | 2 => constr:(59 + l)
  | 3 => constr:(90 + l)
  | 4 => constr:(120 + l)
  | 5 => constr:(151 + l)
  | 6 => constr:(181 + l)
  | 7 => constr:(212 + l)
  | 8 => constr:(243 + l)
  | 9 => constr:(273 + l)
  | 10 => constr:(304 + l)
  | 11 => constr:(334 + l)
  | 12 => constr:(365 + l)
  end.

Ltac dbm :=
  repeat match goal with
    | |- context [DaysBeforeMonth ?k ?l] =>
        let e := dbm_entry k l in
        change (DaysBeforeMonth k l) with e
    | H : context [DaysBeforeMonth ?k ?l] |- _ =>
        let e := dbm_entry k l in
        change (DaysBeforeMonth k l) with e in H
    end.

Lemma MonthOfYearDay_spec (w l : Z) :
  0 <= w < 365 + l -> 0 <= l <= 1 ->
  DaysBeforeMonth (MonthOfYearDay w l) l <= w
  < DaysBeforeMonth (MonthOfYearDay w l + 1) l.
Proof.
  intros Hw Hl. unfold MonthOfYearDay.
  repeat match goal with
    | |- context [?a <? ?b] => destruct (Z.ltb_spec a b)
    end; dbm; lia.
Qed.

Lemma MonthOfYearDay_unique (w l m : Z) :
  0 <= m <= 11 -> 0 <= l <= 1 ->
  DaysBeforeMonth m l <= w < DaysBeforeMonth (m + 1) l ->
  MonthOfYearDay w l = m.
Proof.
  intros Hm Hl. month_cases m.
  repeat match goal with H : _ \/ _ |- _ => destruct H end; subst m;
    dbm; intros Hw; unfold MonthOfYearDay;
    repeat match goal with
      | |- context [?a <? ?b] => destruct (Z.ltb_spec a b)
      end; lia.
Qed.

Lemma DaysBeforeMonth_mono (m1 m2 l : Z) :
  0 <= l -> m1 <= m2 -> DaysBeforeMonth m1 l <= DaysBeforeMonth m2 l.
Proof.
  intros Hl H. unfold DaysBeforeMonth.
  repeat match goal with
    | |- context [?a <=? ?b] => destruct (Z.leb_spec a b)
    | |- context [?a =? ?b] => destruct (Z.eqb_spec a b)
    end; lia.
Qed.

(** [MakeDay] without a carry into the next year, and with the carry of
    month 12. *)
Lemma MakeDay_month (y m dt : Z) :
  0 <= m <= 12 ->
  MakeDay y m dt = DayFromYear y + DaysBeforeMonth m (LeapOfYear y) + dt - 1.
Proof.
  intros Hm. unfold MakeDay.
  destruct (Z.eq_dec m 12) as [->|Hne].
  - change (12 / 12) with 1. change (12 mod 12) with 0.
    rewrite DayFromYear_succ, DaysInYear_leap. dbm. lia.
  - rewrite Z.div_small, Z.mod_small by lia.
    now rewrite Z.add_0_r.
Qed.

(** The days of month [m] of year [y], and only they, lie between the first
    of the month and the first of the next one. *)
Lemma month_of_day (n y m : Z) :
  0 <= m <= 11 ->
  MakeDay y m 1 <= n < MakeDay y (m + 1) 1 ->
  YearFromDay n = y
  /\ MonthOfYearDay (n - DayFromYear y) (LeapOfYear y) = m.
Proof.
  intros Hm. rewrite !MakeDay_month by lia. intros Hn.
  pose proof (LeapOfYear_range y) as Hl.
  pose proof (DaysBeforeMonth_mono 0 m (LeapOfYear y)).
  pose proof (DaysBeforeMonth_mono (m + 1) 12 (LeapOfYear y)).
  dbm. split.
  - apply YearFromDay_unique. rewrite DayFromYear_succ, DaysInYear_leap. lia.
  - apply MonthOfYearDay_unique; lia.
Qed.

Lemma day_in_month (n : Z) :
  let y := YearFromDay n in
  let m := MonthOfYearDay (n - DayFromYear y) (LeapOfYear y) in
  0 <= m <= 11 /\ MakeDay y m 1 <= n < MakeDay y (m + 1) 1.
Proof.
  intros y m. pose proof (MonthOfYearDay_range (n - DayFromYear y) (LeapOfYear y)).
  split; [assumption|]. rewrite !MakeDay_month by (subst m; lia).
  pose proof (DayWithinYear_range n). pose proof (LeapOfYear_range y).
  pose proof (MonthOfYearDay_spec (n - DayFromYear y) (LeapOfYear y)).
  subst m y. lia.
Qed.

Lemma DaysBeforeMonth_lt (m l : Z) :
  0 <= m <= 11 -> 0 <= l <= 1 ->
  DaysBeforeMonth m l < DaysBeforeMonth (m + 1) l.
Proof.
  intros Hm Hl. month_cases m.
  repeat match goal with H : _ \/ _ |- _ => destruct H end; subst m;
    dbm; lia.
Qed.

Lemma MakeDay_year_mono (y1 y2 m dt : Z) :
  0 <= m <= 12 -> y1 <= y2 -> MakeDay y1 m dt <= MakeDay y2 m dt.
Proof.
  intros Hm Hy. destruct (Z.eq_dec y1 y2) as [->|Hne]; [lia|].
  rewrite !MakeDay_month by lia.
  pose proof (DayFromYear_le (y1 + 1) y2) as Hle.
  rewrite DayFromYear_succ, DaysInYear_leap in Hle.
  pose proof (LeapOfYear_range y1). pose proof (LeapOfYear_range y2).
  pose proof (DaysBeforeMonth_mono 0 m (LeapOfYear y2)).
  pose proof (DaysBeforeMonth_mono m 12 (LeapOfYear y1)).
  dbm. lia.
Qed.

Lemma MakeDay_month_mono (y m1 m2 dt : Z) :
  0 <= m1 -> m1 <= m2 -> m2 <= 12 -> MakeDay y m1 dt <= MakeDay y m2 dt.
Proof.
  intros. rewrite !MakeDay_month by lia.
  pose proof (LeapOfYear_range y).
  pose proof (DaysBeforeMonth_mono m1 m2 (LeapOfYear y)). lia.
Qed.

Lemma MakeDay_next_year (y : Z) : MakeDay (y + 1) 0 1 = MakeDay y 12 1.
Proof.
  rewrite !MakeDay_month by lia. dbm.
  rewrite DayFromYear_succ, DaysInYear_leap. lia.
Qed.

Lemma MakeDay_date (y m dt1 dt2 : Z) :
  MakeDay y m dt2 = MakeDay y m dt1 + (dt2 - dt1).
Proof. unfold MakeDay. lia. Qed.

(** [MakeFullYear] *)

Lemma MakeFullYear_literal (y : Z) : y < 0 \/ 99 < y -> MakeFullYear y = y.
Proof.
  intros H. unfold MakeFullYear.
  destruct (Z.leb_spec 0 y), (Z.leb_spec y 99); cbn [andb]; lia.
Qed.

Lemma MakeFullYear_ge (y : Z) : y <= MakeFullYear y.
Proof.
  unfold MakeFullYear.
  destruct (Z.leb_spec 0 y), (Z.leb_spec y 99); cbn [andb]; lia.
Qed.

Lemma MakeFullYear_is_literal (y : Z) :
  MakeFullYear y < 0 \/ 99 < MakeFullYear y.
Proof.
  unfold MakeFullYear.
  destruct (Z.leb_spec 0 y), (Z.leb_spec y 99); cbn [andb]; lia.
Qed.

Lemma MakeFullYear_idem (y : Z) :
  MakeFullYear (MakeFullYear y) = MakeFullYear y.
Proof. apply MakeFullYear_literal, MakeFullYear_is_literal. Qed.

(** ** Facts on dates *)


Lemma LocalTime_UTC (t : Z) : LocalTime (UTC t) = t.
Proof. unfold LocalTime, UTC. lia. Qed.

Lemma localDayOf_newDate (y m dt : Z) :
  localDayOf (newDate y m dt) = MakeDay (MakeFullYear y) m dt.
Proof.
  unfold localDayOf, newDate. rewrite LocalTime_UTC. unfold MakeDate.
  rewrite Z.add_0_r. apply Day_mul.
Qed.

(** A local midnight is at or before [d] exactly when its day number is at
    most the local day of [d]. *)
Lemma midnight_le (k : Z) (d : Date) :
  UTC (MakeDate k 0) <= d <-> k <= localDayOf d.
Proof.
  unfold localDayOf. rewrite Day_ge_iff. unfold UTC, LocalTime, MakeDate. lia.
Qed.

Lemma midnight_gt (k : Z) (d : Date) :
  d < UTC (MakeDate k 0) <-> localDayOf d < k.
Proof.
  unfold localDayOf. rewrite Day_lt_iff. unfold UTC, LocalTime, MakeDate. lia.
Qed.

Lemma getFullYear_day (d : Date) : getFullYear d = YearFromDay (localDayOf d).
Proof. reflexivity. Qed.

Lemma getMonth_day (d : Date) :
  getMonth d =
  MonthOfYearDay (localDayOf d - DayFromYear (getFullYear d))
    (LeapOfYear (getFullYear d)).
Proof. reflexivity. Qed.

Lemma getMonth_range (d : Date) : 0 <= getMonth d <= 11.
Proof. rewrite getMonth_day. apply MonthOfYearDay_range. Qed.

(** The calendar day of [d], put back through [MakeDay], is its local day:
    the getters and [MakeDay] are inverse to each other. *)
Lemma MakeDay_getters (d : Date) :
  MakeDay (getFullYear d) (getMonth d) (getDate d) = localDayOf d.
Proof.
  pose proof (getMonth_range d). rewrite MakeDay_month by lia.
  unfold getDate, DateFromTime, DayWithinYear.
  change (MonthFromTime (LocalTime d)) with (getMonth d).
  change (InLeapYear (LocalTime d)) with (LeapOfYear (getFullYear d)).
  change (YearFromTime (LocalTime d)) with (getFullYear d).
  unfold localDayOf. lia.
Qed.

Lemma first_of_month_le (d : Date) :
  MakeDay (getFullYear d) (getMonth d) 1 <= localDayOf d
  < MakeDay (getFullYear d) (getMonth d + 1) 1.
Proof. apply (day_in_month (localDayOf d)). Qed.

Lemma getDate_range (d : Date) : 1 <= getDate d.
Proof.
  pose proof (MakeDay_getters d) as E. pose proof (first_of_month_le d) as H.
  rewrite (MakeDay_date _ _ 1 (getDate d)) in E. lia.
Qed.

(** The year and month of the first of a month built by the constructor. *)
Lemma getters_first_of_month (y m : Z) :
  0 <= m <= 11 ->
  getFullYear (newDate y m 1) = MakeFullYear y
  /\ getMonth (newDate y m 1) = m.
Proof.
  intros Hm. rewrite getMonth_day, !getFullYear_day, localDayOf_newDate.
  pose proof (LeapOfYear_range (MakeFullYear y)).
  pose proof (DaysBeforeMonth_lt m (LeapOfYear (MakeFullYear y))).
  destruct (month_of_day (MakeDay (MakeFullYear y) m 1) (MakeFullYear y) m)
    as [Ey Em]; [lia| |].
  - rewrite !MakeDay_month by lia. lia.
  - rewrite Ey. split; [reflexivity|exact Em].
Qed.

Lemma quarter_month (m : Z) :
  0 <= m <= 11 -> 0 <= m / 3 * 3 <= 9 /\ m / 3 * 3 <= m /\ m + 1 <= m / 3 * 3 + 3.
Proof. intros. zdiv. Qed.

(** *** floor(d, g) <= d, for a year the constructor takes literally *)
Lemma floorToGranularity_le (d : Date) (g : Granularity) :
  literal_year (getFullYear d) -> floorToGranularity d g <= d.
Proof.
  intros Hy. apply MakeFullYear_literal in Hy.
  pose proof (getMonth_range d) as Hm.
  pose proof (first_of_month_le d) as [Hlo _].
  destruct g; unfold floorToGranularity, newDate; rewrite Hy;
    apply midnight_le.
  - rewrite MakeDay_getters. lia.
  - exact Hlo.
  - pose proof (quarter_month (getMonth d) Hm).
    pose proof (MakeDay_month_mono (getFullYear d) (getMonth d / 3 * 3)
                  (getMonth d) 1). lia.
  - pose proof (MakeDay_month_mono (getFullYear d) 0 (getMonth d) 1). lia.
Qed.

(** *** d <= ceil(d, g), for every date *)
Lemma le_ceilToGranularity (d : Date) (g : Granularity) :
  d <= ceilToGranularity d g.
Proof.
  unfold ceilToGranularity.
  destruct (Z.eqb_spec (getTime (floorToGranularity d g)) (getTime d));
    [lia|].
  apply Z.lt_le_incl.
  pose proof (getMonth_range d) as Hm.
  pose proof (first_of_month_le d) as [_ Hhi].
  pose proof (MakeFullYear_ge (getFullYear d)) as Hge.
  pose proof (quarter_month (getMonth d) Hm) as Hq.
  destruct g; cbn [floorToGranularity].
  - unfold newDate. apply midnight_gt.
    pose proof (MakeDay_year_mono (getFullYear d)
                  (MakeFullYear (getFullYear d)) (getMonth d)
                  (getDate d + 1)).
    rewrite (MakeDay_date _ _ (getDate d) (getDate d + 1)), MakeDay_getters
      in H. lia.
  - destruct (getters_first_of_month (getFullYear d) (getMonth d) Hm)
      as [-> ->].
    unfold newDate. rewrite MakeFullYear_idem. apply midnight_gt.
    pose proof (MakeDay_year_mono (getFullYear d)
                  (MakeFullYear (getFullYear d)) (getMonth d + 1) 1). lia.
  - destruct (getters_first_of_month (getFullYear d) (getMonth d / 3 * 3))
      as [-> ->]; [lia|].
    unfold newDate. rewrite MakeFullYear_idem. apply midnight_gt.
    pose proof (MakeDay_year_mono (getFullYear d)
                  (MakeFullYear (getFullYear d)) (getMonth d / 3 * 3 + 3) 1).
    pose proof (MakeDay_month_mono (getFullYear d) (getMonth d + 1)
                  (getMonth d / 3 * 3 + 3) 1). lia.
  - destruct (getters_first_of_month (getFullYear d) 0) as [-> _]; [lia|].
    unfold newDate. apply midnight_gt.
    pose proof (MakeFullYear_ge (MakeFullYear (getFullYear d) + 1)).
    pose proof (MakeDay_year_mono (getFullYear d + 1)
      (MakeFullYear (MakeFullYear (getFullYear d) + 1)) 0 1).
    pose proof (MakeDay_month_mono (getFullYear d) (getMonth d + 1) 12 1).
    pose proof (MakeDay_next_year (getFullYear d)). lia.
Qed.

Lemma getFullYear_mono (d1 d2 : Date) :
  d1 <= d2 -> getFullYear d1 <= getFullYear d2.
Proof.
  intros H. rewrite !getFullYear_day. apply YearFromDay_mono, Day_mono.
  unfold LocalTime. lia.
Qed.

(** Between bounds with literal years every date has a literal year. *)
Lemma literal_years_between (min max d : Date) :
  literal_years min max -> min <= d <= max -> literal_year (getFullYear d).
Proof.
  intros Hb [Hlo Hhi]. pose proof (getFullYear_mono _ _ Hlo).
  pose proof (getFullYear_mono _ _ Hhi). unfold literal_years in Hb.
  unfold literal_year. lia.
Qed.

(** ** The range normaliser *)

Lemma clampDate_in (d minD maxD : Date) :
  minD <= maxD -> minD <= clampDate d minD maxD <= maxD.
Proof.
  intros H. unfold clampDate.
  destruct (Z.ltb_spec d minD); [lia|].
  destruct (Z.gtb_spec d maxD); lia.
Qed.

Lemma clampDate_id (d minD maxD : Date) :
  minD <= d <= maxD -> clampDate d minD maxD = d.
Proof.
  intros H. unfold clampDate.
  destruct (Z.ltb_spec d minD); [lia|].
  destruct (Z.gtb_spec d maxD); lia.
Qed.

Lemma clampDate_mono (d1 d2 minD maxD : Date) :
  minD <= maxD -> d1 <= d2 ->
  clampDate d1 minD maxD <= clampDate d2 minD maxD.
Proof.
  intros H H12. unfold clampDate.
  destruct (Z.ltb_spec d1 minD), (Z.ltb_spec d2 minD);
    destruct (Z.gtb_spec d1 maxD), (Z.gtb_spec d2 maxD); lia.
Qed.

(** The three outcomes of a clamp. *)
Lemma clampDate_cases (d minD maxD : Date) :
  clampDate d minD maxD = d \/ clampDate d minD maxD = minD
  \/ clampDate d minD maxD = maxD.
Proof.
  unfold clampDate. destruct (d <? minD); [auto|].
  destruct (d >? maxD); auto.
Qed.

(** Destructs the order tests of a swap. *)
Ltac order_cases :=
  repeat match goal with
    | |- context [?a >? ?b] => destruct (Z.gtb_spec a b)
    end.

(** The drag commit ends with a clamp and a swap, so its result is always
    ordered and inside the bounds. *)
Lemma commitDrag_in_bounds (min max : Date) (snap : bool) (g : Granularity)
  (newStart newEnd : Date) :
  min <= max -> in_bounds min max (commitDrag min max snap g newStart newEnd).
Proof.
  intros Hmm. unfold commitDrag, getTime, in_bounds.
  destruct (newStart >? newEnd), snap;
    match goal with
    | |- context [clampDate ?a min max >? clampDate ?b min max] =>
        pose proof (clampDate_in a min max Hmm);
        pose proof (clampDate_in b min max Hmm);
        destruct (Z.gtb_spec (clampDate a min max) (clampDate b min max))
    end; cbn [start end_]; lia.
Qed.

(** The clamped and ordered range [normalizedRange] starts from. *)
Lemma clamped_ordered (min max a b : Date) :
  min <= max ->
  let s := clampDate a min max in
  let e := clampDate b min max in
  let p := if getTime s >? getTime e then (e, s) else (s, e) in
  min <= fst p /\ fst p <= snd p /\ snd p <= max.
Proof.
  intros Hmm s e p. subst p. unfold getTime.
  pose proof (clampDate_in a min max Hmm).
  pose proof (clampDate_in b min max Hmm). fold s e in H, H0.
  destruct (Z.gtb_spec s e); cbn [fst snd]; lia.
Qed.

(** With literal years between the bounds the snapped ends stay ordered, so
    [normalizedRange] needs no swap after its second clamp. *)
Lemma snap_ordered (min max s e : Date) (g : Granularity) :
  min <= max -> literal_years min max -> min <= s -> s <= e -> e <= max ->
  min <= clampDate (floorToGranularity s g) min max
  /\ clampDate (floorToGranularity s g) min max
     <= clampDate (ceilToGranularity e g) min max
  /\ clampDate (ceilToGranularity e g) min max <= max.
Proof.
  intros Hmm Hy Hs Hse He.
  pose proof (clampDate_in (floorToGranularity s g) min max Hmm).
  pose proof (clampDate_in (ceilToGranularity e g) min max Hmm).
  assert (floorToGranularity s g <= s)
    by (apply floorToGranularity_le, (literal_years_between min max); [assumption|lia]).
  pose proof (le_ceilToGranularity e g).
  pose proof (clampDate_mono (floorToGranularity s g) (ceilToGranularity e g)
                min max Hmm). lia.
Qed.

Lemma normalizedRange_in_bounds (min max : Date) (value : option DateRange)
  (snap : bool) (g : Granularity) :
  min <= max -> literal_years min max ->
  in_bounds min max (normalizedRange min max value snap g).
Proof.
  intros Hmm Hy. unfold normalizedRange, in_bounds.
  pose proof (clamped_ordered min max (start (range min max value))
                (end_ (range min max value)) Hmm) as H. cbv zeta in H.
  destruct (if getTime (clampDate (start (range min max value)) min max) >?
               getTime (clampDate (end_ (range min max value)) min max)
            then _ else _) as [s e].
  cbn [fst snd] in H. destruct H as (H1 & H2 & H3).
  destruct snap; cbn [start end_]; [|auto].
  apply snap_ordered; assumption.
Qed.

(** The range the granularity switch commits is ordered and inside the
    bounds, with literal years between the bounds. *)
Lemma handleGranularityChange_in_bounds (min max : Date)
  (value : option DateRange) (snap : bool) (g newG : Granularity) :
  min <= max -> literal_years min max ->
  in_bounds min max (snd (handleGranularityChange min max value snap g newG)).
Proof.
  intros Hmm Hy. unfold handleGranularityChange. cbn [snd].
  destruct (normalizedRange_in_bounds min max value snap g Hmm Hy)
    as (H1 & H2 & H3).
  unfold in_bounds. cbn [start end_]. apply snap_ordered; assumption.
Qed.

(** With literal years between the bounds, [normalizedRange] returns what
    the steps of the specification produce: the re-swap it lacks would not
    fire. *)
Lemma normalizedRange_spec_steps (min max : Date) (raw : DateRange)
  (snap : bool) (g : Granularity) :
  min <= max -> literal_years min max ->
  normalizedRange min max (Some raw) snap g
  = normalize_spec raw min max g snap.
Proof.
  intros Hmm Hy. unfold normalizedRange, normalize_spec, range, getTime.
  pose proof (clamped_ordered min max (start raw) (end_ raw) Hmm) as H.
  cbv zeta in H. unfold getTime in H.
  destruct (if clampDate (start raw) min max >? clampDate (end_ raw) min max
            then _ else _) as [s e].
  cbn [fst snd] in H. destruct H as (H1 & H2 & H3).
  destruct snap; [|reflexivity].
  pose proof (snap_ordered min max s e g Hmm Hy H1 H2 H3) as (_ & Ho & _).
  destruct (Z.gtb_spec (clampDate (floorToGranularity s g) min max)
              (clampDate (ceilToGranularity e g) min max)); [lia|].
  reflexivity.
Qed.

(** On endpoints that lie inside the bounds the first clamp of the
    specification does nothing, and [commitDrag] runs its remaining steps. *)
Lemma commitDrag_spec_steps (min max : Date) (snap : bool) (g : Granularity)
  (newStart newEnd : Date) :
  min <= newStart <= max -> min <= newEnd <= max ->
  commitDrag min max snap g newStart newEnd
  = normalize_spec {| start := newStart; end_ := newEnd |} min max g snap.
Proof.
  intros Hs He. unfold commitDrag, normalize_spec, getTime. cbn [start end_].
  rewrite (clampDate_id newStart), (clampDate_id newEnd) by assumption.
  destruct (Z.gtb_spec newStart newEnd), snap; try reflexivity;
    rewrite !clampDate_id by lia; order_cases; try reflexivity; lia.
Qed.

Lemma normalizedRange_in_bounds_snap_off (min max : Date)
  (value : option DateRange) (g : Granularity) :
  min <= max -> in_bounds min max (normalizedRange min max value false g).
Proof.
  intros Hmm. unfold normalizedRange, in_bounds.
  pose proof (clamped_ordered min max (start (range min max value))
                (end_ (range min max value)) Hmm) as H. cbv zeta in H.
  destruct (if getTime (clampDate (start (range min max value)) min max) >?
               getTime (clampDate (end_ (range min max value)) min max)
            then _ else _) as [s e].
  exact H.
Qed.

(** ** The band drag *)

(** Turns a comparison of rationals built from integers and halves into
    integer arithmetic. *)
Ltac qz :=
  unfold Qeq, Qle, Qlt in *;
  cbn -[Z.mul Z.add Z.opp Z.sub] in *; lia.

Lemma Qltb_lt (x y : Q) : Qltb x y = true <-> (x < y)%Q.
Proof.
  unfold Qltb. rewrite negb_true_iff, <- not_true_iff_false, Qle_bool_iff.
  split; [apply Qnot_le_lt | apply Qlt_not_le].
Qed.

Lemma Qltb_ge (x y : Q) : Qltb x y = false <-> (y <= x)%Q.
Proof.
  unfold Qltb. rewrite negb_false_iff. apply Qle_bool_iff.
Qed.

Lemma ToIntegerOrInfinity_comp (x y : Q) :
  (x == y)%Q -> ToIntegerOrInfinity x = ToIntegerOrInfinity y.
Proof.
  intros E. unfold ToIntegerOrInfinity.
  rewrite (Qleb_comp _ _ (Qeq_refl _) x y E), (Qfloor_comp x y E),
    (Qceiling_comp x y E). reflexivity.
Qed.

Lemma ToIntegerOrInfinity_half (a : Z) :
  ToIntegerOrInfinity (inject_Z a / 2) = Z.quot a 2.
Proof.
  unfold ToIntegerOrInfinity.
  destruct (Qle_bool _ (inject_Z a / 2)) eqn:E.
  - apply Qle_bool_iff in E. unfold Qle in E. cbn in E.
    unfold Qfloor. cbn. rewrite Z.mul_1_r in *.
    rewrite Z.quot_div_nonneg by lia. reflexivity.
  - apply not_true_iff_false in E. rewrite Qle_bool_iff in E.
    unfold Qle in E. cbn in E. unfold Qceiling, Qfloor. cbn.
    rewrite !Z.mul_1_r in *.
    pose proof (Z.quot_opp_l (- a) 2 ltac:(lia)) as Q1.
    rewrite Z.opp_involutive in Q1. rewrite Q1.
    rewrite Z.quot_div_nonneg by lia. reflexivity.
Qed.

Lemma half_double (z : Z) : (inject_Z (2 * z) / 2 == inject_Z z)%Q.
Proof. qz. Qed.

Lemma ToIntegerOrInfinity_Z (z : Z) : ToIntegerOrInfinity (inject_Z z) = z.
Proof.
  rewrite <- (ToIntegerOrInfinity_comp _ _ (half_double z)),
    ToIntegerOrInfinity_half.
  rewrite Z.mul_comm. apply Z.quot_mul. lia.
Qed.

(** ** Doubles *)

Section Doubles.

Import Number.
Local Open Scope Q_scope.

Lemma pow2_Z (a : Z) : (0 <= a)%Z -> 2 ^ a == inject_Z (2 ^ a).
Proof. intros H. symmetry. apply (Zpower_Qpower 2 a H). Qed.

Lemma pow2_pos (e : Z) : 0 < 2 ^ e.
Proof. apply Qpower_0_lt. reflexivity. Qed.

Lemma two_neq_0 : ~ 2 == 0.
Proof. discriminate. Qed.

Lemma Qabs_frac (x : Q) : Qabs x = (Z.abs (Qnum x) # Qden x).
Proof. destruct x. reflexivity. Qed.

Lemma ilog2_spec (x : Q) :
  ~ x == 0 -> 2 ^ ilog2 x <= Qabs x /\ Qabs x < 2 ^ (ilog2 x + 1).
Proof.
  intros Hx. unfold ilog2. rewrite Qabs_frac.
  set (N := Z.abs (Qnum x)). set (d := Zpos (Qden x)).
  assert (HN : (0 < N)%Z).
  { subst N. destruct x as [n dd]. unfold Qeq in Hx. cbn in *. lia. }
  assert (Hd : (0 < d)%Z) by (subst d; lia).
  pose proof (Z.log2_spec N HN) as [La Ua].
  pose proof (Z.log2_spec d Hd) as [Lb Ub].
  pose proof (Z.log2_nonneg N). pose proof (Z.log2_nonneg d).
  set (a := Z.log2 N) in *. set (b := Z.log2 d) in *.
  clearbody a b. unfold Z.succ in *.
  assert (0 < 2 ^ a)%Z by (apply Z.pow_pos_nonneg; lia).
  assert (0 < 2 ^ b)%Z by (apply Z.pow_pos_nonneg; lia).
  assert (E1 : (2 ^ (a + 1) = 2 * 2 ^ a)%Z) by (rewrite Z.pow_add_r; lia).
  assert (E2 : (2 ^ (b + 1) = 2 * 2 ^ b)%Z) by (rewrite Z.pow_add_r; lia).
  assert (Hup : (N # Qden x) < 2 ^ (a - b + 1)).
  { replace (a - b + 1)%Z with ((a + 1) - b)%Z by lia.
    rewrite (Qpower_minus 2 (a + 1) b two_neq_0).
    apply Qlt_shift_div_l; [apply pow2_pos|].
    rewrite !pow2_Z by lia. unfold Qlt, Qmult.
    cbn [Qnum Qden inject_Z]. rewrite Pos.mul_1_r, Z.mul_1_r. fold d. nia. }
  assert (Hlo : 2 ^ (a - b - 1) <= (N # Qden x)).
  { replace (a - b - 1)%Z with (a - (b + 1))%Z by lia.
    rewrite (Qpower_minus 2 a (b + 1) two_neq_0).
    apply Qle_shift_div_r; [apply pow2_pos|].
    rewrite !pow2_Z by lia. unfold Qle, Qmult.
    cbn [Qnum Qden inject_Z]. rewrite Pos.mul_1_r, Z.mul_1_r. fold d. nia. }
  destruct (Qle_bool (2 ^ (a - b)) (N # Qden x)) eqn:E.
  - apply Qle_bool_iff in E. split; assumption.
  - apply not_true_iff_false in E. rewrite Qle_bool_iff in E.
    apply Qnot_le_lt in E.
    replace (a - b - 1 + 1)%Z with (a - b)%Z by lia. split; assumption.
Qed.

Lemma roundTiesToEven_comp (x y : Q) :
  x == y -> roundTiesToEven x = roundTiesToEven y.
Proof.
  intros E. unfold roundTiesToEven. rewrite (Qfloor_comp x y E).
  assert (C : (x - inject_Z (Qfloor y) ?= 1 # 2)
              = (y - inject_Z (Qfloor y) ?= 1 # 2)).
  { apply Qcompare_comp; [now rewrite E|reflexivity]. }
  now rewrite C.
Qed.

Lemma roundTiesToEven_Z (m : Z) : roundTiesToEven (inject_Z m) = m.
Proof.
  unfold roundTiesToEven. rewrite Qfloor_Z.
  assert (C : (inject_Z m - inject_Z m ?= 1 # 2) = Lt).
  { rewrite <- Qlt_alt. lra. }
  now rewrite C.
Qed.

Lemma roundTiesToEven_error (x : Q) :
  Qabs (inject_Z (roundTiesToEven x) - x) <= 1 # 2.
Proof.
  unfold roundTiesToEven.
  pose proof (Qfloor_le x) as Lo. pose proof (Qlt_floor x) as Hi.
  set (f := Qfloor x) in *.
  rewrite inject_Z_plus in Hi. change (inject_Z 1) with 1 in Hi.
  apply Qabs_Qle_condition.
  destruct (x - inject_Z f ?= 1 # 2) eqn:C.
  - rewrite <- Qeq_alt in C.
    destruct (Z.even f); [|rewrite inject_Z_plus; change (inject_Z 1) with 1];
      lra.
  - rewrite <- Qlt_alt in C. lra.
  - rewrite <- Qgt_alt in C. rewrite inject_Z_plus.
    change (inject_Z 1) with 1. lra.
Qed.

Lemma binary64_comp (x y : Q) : x == y -> binary64 x = binary64 y.
Proof.
  intros E. unfold binary64. now rewrite (Qred_complete x y E).
Qed.

Lemma binary64_0 (x : Q) : x == 0 -> binary64 x = 0.
Proof. intros E. rewrite (binary64_comp x 0 E). reflexivity. Qed.

(** What [binary64] computes for a number that is not zero. *)
Lemma binary64_value (x : Q) :
  ~ x == 0 ->
  exists e : Z,
    2 ^ (e + 52) <= Qabs x /\ Qabs x < 2 ^ (e + 53)
    /\ binary64 x == inject_Z (roundTiesToEven (x / 2 ^ e)) * 2 ^ e.
Proof.
  intros Hx. unfold binary64.
  pose proof (Qred_correct x) as Er.
  assert (Hr : ~ Qred x == 0) by now rewrite Er.
  destruct (Qeq_bool (Qred x) 0) eqn:E0;
    [apply Qeq_bool_iff in E0; contradiction|].
  destruct (ilog2_spec (Qred x) Hr) as [Lo Hi].
  exists (ilog2 (Qred x) - 52)%Z.
  replace (ilog2 (Qred x) - 52 + 52)%Z with (ilog2 (Qred x)) by lia.
  replace (ilog2 (Qred x) - 52 + 53)%Z with (ilog2 (Qred x) + 1)%Z by lia.
  assert (Ea : Qabs (Qred x) == Qabs x) by (apply Qabs_wd; exact Er).
  rewrite Ea in Lo, Hi. split; [exact Lo|]. split; [exact Hi|].
  rewrite Qred_correct.
  rewrite (roundTiesToEven_comp (Qred x / 2 ^ (ilog2 (Qred x) - 52))
             (x / 2 ^ (ilog2 (Qred x) - 52)))
    by (apply Qmult_comp; [exact Er|reflexivity]).
  reflexivity.
Qed.

(** The relative error of one rounding is at most 2^-53. *)
Lemma binary64_error (x : Q) :
  Qabs (binary64 x - x) <= Qabs x * (1 # 9007199254740992).
Proof.
  destruct (Qeq_dec x 0) as [E|Hx].
  - rewrite (binary64_0 x E), E. cbn. discriminate.
  - destruct (binary64_value x Hx) as (e & Lo & _ & Ev).
    pose proof (pow2_pos e) as Hp.
    pose proof (roundTiesToEven_error (x / 2 ^ e)) as Hr.
    rewrite (Qpower_plus 2 e 52 two_neq_0) in Lo.
    change (2 ^ 52) with 4503599627370496 in Lo.
    set (P := 2 ^ e) in *. set (m := inject_Z (roundTiesToEven (x / P))) in *.
    assert (Ed : binary64 x - x == (m - x / P) * P).
    { rewrite Ev. field. lra. }
    rewrite Ed, Qabs_Qmult, (Qabs_pos P) by lra.
    assert (Hm : Qabs (m - x / P) * P <= (1 # 2) * P).
    { apply Qmult_le_compat_r; [exact Hr|lra]. }
    lra.
Qed.

(** A number with an integer significand below 2^53 is a double. *)
Lemma binary64_representable (j e' : Z) :
  (Z.abs j < 2 ^ 53)%Z ->
  binary64 (inject_Z j * 2 ^ e') == inject_Z j * 2 ^ e'.
Proof.
  intros Hj. set (x := inject_Z j * 2 ^ e').
  destruct (Z.eq_dec j 0) as [->|Hj0].
  - rewrite (binary64_0 x); subst x; change (inject_Z 0) with 0; ring.
  - pose proof (pow2_pos e') as Hp'.
    assert (Hx : ~ x == 0).
    { subst x. intros E. apply Qmult_integral in E. destruct E as [E|E].
      - unfold Qeq in E. cbn in E. lia.
      - lra. }
    destruct (binary64_value x Hx) as (e & Lo & _ & Ev).
    assert (Ha : Qabs x < 2 ^ (e' + 53)).
    { subst x. rewrite Qabs_Qmult, (Qabs_pos (2 ^ e')) by lra.
      rewrite (Qpower_plus 2 e' 53 two_neq_0), Qmult_comm.
      apply Qmult_lt_l; [exact Hp'|].
      rewrite pow2_Z by lia. rewrite Qabs_frac. unfold Qlt. cbn. lia. }
    assert (He : (e <= e')%Z).
    { assert (H : 2 ^ (e + 52) < 2 ^ (e' + 53)) by (eapply Qle_lt_trans; eauto).
      apply Qpower_lt_compat_l_inv in H; [lia|reflexivity]. }
    assert (Ey : x / 2 ^ e == inject_Z (j * 2 ^ (e' - e))).
    { subst x. rewrite inject_Z_mult, <- pow2_Z by lia.
      rewrite (Qpower_minus 2 e' e two_neq_0). field.
      pose proof (pow2_pos e). lra. }
    rewrite Ev, (roundTiesToEven_comp _ _ Ey), roundTiesToEven_Z.
    subst x. rewrite inject_Z_mult, <- pow2_Z by lia.
    rewrite (Qpower_minus 2 e' e two_neq_0). field.
    pose proof (pow2_pos e). lra.
Qed.

Lemma binary64_Z (j : Z) :
  (Z.abs j < 2 ^ 53)%Z -> binary64 (inject_Z j) == inject_Z j.
Proof.
  intros H. rewrite (binary64_comp (inject_Z j) (inject_Z j * 2 ^ 0)) by (cbn; lra).
  rewrite (binary64_representable j 0 H). cbn. lra.
Qed.

Lemma binary64_half (n : Z) :
  (Z.abs n < 2 ^ 53)%Z -> binary64 (inject_Z n / 2) == inject_Z n / 2.
Proof.
  intros H.
  rewrite (binary64_comp (inject_Z n / 2) (inject_Z n * 2 ^ (-1)))
    by (change (2 ^ (-1)) with (/ 2); field).
  rewrite (binary64_representable n (-1) H). change (2 ^ (-1)) with (/ 2). field.
Qed.

(** [Number.EPSILON], 2^-52. *)
Local Abbreviation u := (1 # 4503599627370496).

(** One more rounding adds at most 2^-52 to a relative error of a few
    2^-52. *)
Lemma binary64_step (y z k : Q) :
  0 <= z -> 0 <= k <= 8 ->
  Qabs (y - z) <= k * (1 # 4503599627370496) * z ->
  Qabs (binary64 y - z) <= (k + 1) * (1 # 4503599627370496) * z.
Proof.
  intros Hz Hk H. pose proof (binary64_error y) as E.
  apply Qabs_Qle_condition in H. apply Qabs_Qle_condition in E.
  apply Qabs_Qle_condition.
  assert (Hy : Qabs y <= 2 * z).
  { apply Qabs_Qle_condition.
    assert (k * (1 # 4503599627370496) * z <= z).
    { rewrite <- (Qmult_1_l z) at 2. apply Qmult_le_compat_r; [lra|exact Hz]. }
    lra. }
  assert (Hy' : Qabs y * (1 # 9007199254740992) <= (1 # 4503599627370496) * z)
    by lra.
  lra.
Qed.

Lemma rel_scale (y z c K : Q) :
  0 <= c -> Qabs (y - z) <= K * z -> Qabs (y * c - z * c) <= K * (z * c).
Proof.
  intros Hc H.
  assert (E : y * c - z * c == (y - z) * c) by ring.
  rewrite E, Qabs_Qmult, (Qabs_pos c) by exact Hc.
  assert (E2 : K * (z * c) == K * z * c) by ring. rewrite E2.
  apply Qmult_le_compat_r; assumption.
Qed.

Lemma inject_Z_lt_succ (a b : Z) : inject_Z a < inject_Z b + 1 -> (a <= b)%Z.
Proof.
  intros H. change 1 with (inject_Z 1) in H. rewrite <- inject_Z_plus in H.
  rewrite <- Zlt_Qlt in H. lia.
Qed.

Lemma inject_Z_pred_lt (a b : Z) : inject_Z a - 1 < inject_Z b -> (a <= b)%Z.
Proof.
  intros H. assert (H' : inject_Z a < inject_Z b + 1) by lra.
  now apply inject_Z_lt_succ.
Qed.

Lemma ToIntegerOrInfinity_near (x : Q) (d : Z) :
  inject_Z d - 1 < x -> x < inject_Z d + 1 ->
  (Z.abs (ToIntegerOrInfinity x - d) <= 1)%Z.
Proof.
  intros Lo Hi. unfold ToIntegerOrInfinity. destruct (Qle_bool 0 x).
  - pose proof (Qfloor_le x) as Fl. pose proof (Qlt_floor x) as Fu.
    rewrite inject_Z_plus in Fu. change (inject_Z 1) with 1 in Fu.
    assert (Qfloor x <= d)%Z by (apply inject_Z_lt_succ; lra).
    assert (d <= Qfloor x + 1)%Z.
    { apply inject_Z_pred_lt. rewrite inject_Z_plus.
      change (inject_Z 1) with 1. lra. }
    lia.
  - pose proof (Qle_ceiling x) as Cu. pose proof (Qceiling_lt x) as Cl.
    unfold Z.sub in Cl. rewrite inject_Z_plus in Cl.
    change (inject_Z (-1)) with (-(1)) in Cl.
    assert (d <= Qceiling x)%Z by (apply inject_Z_pred_lt; lra).
    assert (Qceiling x - 1 <= d)%Z.
    { apply inject_Z_lt_succ. unfold Z.sub. rewrite inject_Z_plus.
      change (inject_Z (-1)) with (-(1)). lra. }
    lia.
Qed.

End Doubles.

(** [2 ^ 50] ms: about 35 700 years.  Between the dates 2^50 ms before and
    after the epoch every half-millisecond the band drag computes is below
    2^52 in magnitude and is a double: no operation rounds. *)
Lemma slideWindow_spec (min max : Date) (value : option DateRange)
  (snap : bool) (g : Granularity) (dateAt : Date) :
  let nr := normalizedRange min max value snap g in
  let span := end_ nr - start nr in
  0 <= span <= max - min ->
  - 2 ^ 50 <= min -> max <= 2 ^ 50 -> - 2 ^ 50 <= dateAt <= 2 ^ 50 ->
  exists a : Z,
    (fst (slideWindow min max value snap g dateAt) == inject_Z a / 2)%Q
    /\ (snd (slideWindow min max value snap g dateAt)
        == inject_Z (a + 2 * span) / 2)%Q
    /\ 2 * min <= a /\ a + 2 * span <= 2 * max
    /\ (a = 2 * dateAt - span \/ Z.even a = true).
Proof.
  intros nr span Hspan Hmin Hmax Hd.
  change (2 ^ 50) with 1125899906842624 in *.
  assert (B : forall n : Z,
             Z.abs n <= 4 * 1125899906842624 ->
             (Number.binary64 (inject_Z n / 2) == inject_Z n / 2)%Q).
  { intros n Hn. apply binary64_half.
    change (2 ^ 53) with 9007199254740992. lia. }
  unfold slideWindow, Number.add, Number.subtract, Number.divide, timeOf,
    getTime.
  fold nr.
  rewrite (binary64_comp (inject_Z (end_ nr) - inject_Z (start nr))
             (inject_Z (2 * span) / 2)) by (subst span; qz).
  rewrite (binary64_comp (Number.binary64 (inject_Z (2 * span) / 2) / 2)
             (inject_Z span / 2)) by (rewrite B by lia; qz).
  rewrite (binary64_comp (inject_Z dateAt - _)
             (inject_Z (2 * dateAt - span) / 2)) by (rewrite B by lia; qz).
  rewrite (binary64_comp (inject_Z dateAt + _)
             (inject_Z (2 * dateAt + span) / 2)) by (rewrite B by lia; qz).
  pose proof (B (2 * dateAt - span) ltac:(lia)) as Es.
  pose proof (B (2 * dateAt + span) ltac:(lia)) as Ee.
  set (s0 := Number.binary64 (inject_Z (2 * dateAt - span) / 2)) in *.
  set (e0 := Number.binary64 (inject_Z (2 * dateAt + span) / 2)) in *.
  clearbody s0 e0.
  destruct (Qltb s0 (inject_Z min)) eqn:E1.
  - apply Qltb_lt in E1. rewrite Es in E1.
    rewrite (binary64_comp (inject_Z min - s0)
               (inject_Z (2 * min - (2 * dateAt - span)) / 2))
      by (rewrite Es; qz).
    rewrite (binary64_comp (e0 + _) (inject_Z (2 * min + 2 * span) / 2))
      by (rewrite Ee, B by lia; qz).
    pose proof (B (2 * min + 2 * span) ltac:(lia)) as Ee1.
    set (e1 := Number.binary64 (inject_Z (2 * min + 2 * span) / 2)) in *.
    clearbody e1.
    destruct (Qltb (inject_Z max) e1) eqn:E2.
    + apply Qltb_lt in E2. rewrite Ee1 in E2. exfalso. qz.
    + exists (2 * min). cbn [fst snd]. repeat split.
      * qz.
      * exact Ee1.
      * lia.
      * lia.
      * right. rewrite Z.even_mul. reflexivity.
  - apply Qltb_ge in E1. rewrite Es in E1.
    destruct (Qltb (inject_Z max) e0) eqn:E2.
    + apply Qltb_lt in E2. rewrite Ee in E2.
      rewrite (binary64_comp (e0 - inject_Z max)
                 (inject_Z (2 * dateAt + span - 2 * max) / 2))
        by (rewrite Ee; qz).
      rewrite (binary64_comp (s0 - _) (inject_Z (2 * (max - span)) / 2))
        by (rewrite Es, B by (clear E1 E2; lia); qz).
      pose proof (B (2 * (max - span)) ltac:(lia)) as Es2.
      exists (2 * (max - span)). cbn [fst snd]. repeat split.
      * exact Es2.
      * qz.
      * lia.
      * lia.
      * right. rewrite Z.even_mul. reflexivity.
    + apply Qltb_ge in E2. rewrite Ee in E2.
      exists (2 * dateAt - span). cbn [fst snd]. repeat split.
      * exact Es.
      * rewrite Ee. qz.
      * qz.
      * qz.
      * left. reflexivity.
Qed.

Lemma quot_half_shift (a span : Z) :
  0 <= span ->
  0 <= a \/ a + 2 * span <= 0 \/ Z.even a = true ->
  Z.quot (a + 2 * span) 2 - Z.quot a 2 = span.
Proof.
  intros Hs [H|[H|H]].
  - rewrite !Z.quot_div_nonneg by lia. zdiv.
  - Z.to_euclidean_division_equations; lia.
  - apply Z.even_spec in H. destruct H as [k ->].
    replace (2 * k + 2 * span) with ((k + span) * 2) by lia.
    replace (2 * k) with (k * 2) by lia.
    rewrite !Z.quot_mul by lia. lia.
Qed.

Lemma quot_half_bounds (a lo hi : Z) :
  2 * lo <= a <= 2 * hi -> lo <= Z.quot a 2 <= hi.
Proof. intros H. Z.to_euclidean_division_equations; lia. Qed.

(** Both ends of the slid window, as dates, are inside the bounds when the
    current selection is (where no operation rounds). *)
Lemma slideWindow_dates_in_bounds (min max : Date) (value : option DateRange)
  (snap : bool) (g : Granularity) (dateAt : Date) :
  in_bounds min max (normalizedRange min max value snap g) ->
  - 2 ^ 50 <= min -> max <= 2 ^ 50 -> - 2 ^ 50 <= dateAt <= 2 ^ 50 ->
  let w := slideWindow min max value snap g dateAt in
  min <= Date_of_number (fst w) <= max
  /\ min <= Date_of_number (snd w) <= max.
Proof.
  intros (H1 & H2 & H3) Hmin Hmax Hd w.
  destruct (slideWindow_spec min max value snap g dateAt)
    as (a & Es & Ee & Hlo & Hhi & _); [lia|assumption..|].
  fold w in Es, Ee. unfold Date_of_number, TimeClip.
  rewrite (ToIntegerOrInfinity_comp _ _ Es), (ToIntegerOrInfinity_comp _ _ Ee),
    !ToIntegerOrInfinity_half.
  split; apply quot_half_bounds; lia.
Qed.


(** ** The coordinate mapper *)

Section Mapper.

Import Number.
Local Open Scope Q_scope.
Local Abbreviation u := (1 # 4503599627370496).

Lemma total_value (min max : Date) :
  (Z.abs (max - min) < 2 ^ 53)%Z ->
  total min max == inject_Z (Z.max 1 (max - min)).
Proof.
  intros H. unfold total, Number.subtract, timeOf, getTime.
  assert (Ew : binary64 (inject_Z max - inject_Z min) == inject_Z (max - min)).
  { rewrite (binary64_comp _ (inject_Z (max - min)))
      by (unfold Qminus, Z.sub; rewrite inject_Z_plus, inject_Z_opp; reflexivity).
    now apply binary64_Z. }
  destruct (Qltb 1 _) eqn:E.
  - apply Qltb_lt in E. rewrite Ew in *. change 1 with (inject_Z 1) in E.
    rewrite <- Zlt_Qlt in E. now rewrite Z.max_r by lia.
  - apply Qltb_ge in E. rewrite Ew in E. change 1 with (inject_Z 1) in E.
    rewrite <- Zle_Qle in E. now rewrite Z.max_l by lia.
Qed.

(** C7, as amended.  For bounds within 2^48 ms of the epoch (about 8900
    years on either side) and every date [d] between them, the round trip
    through the percentage returns [d] or a date one millisecond from it:
    the double that [fromPct] computes is within 5/8 ms of [d], and
    [new Date] truncates it towards zero. *)
Theorem round_trip_within_a_millisecond (min max d : Date) :
  (- 2 ^ 48 <= min)%Z -> (max <= 2 ^ 48)%Z -> (min <= d <= max)%Z ->
  (Z.abs (fromPct min max (toPct min max d) - d) <= 1)%Z.
Proof.
  intros Hmin Hmax Hd.
  change (2 ^ 48)%Z with 281474976710656%Z in *.
  pose proof (total_value min max) as ET.
  change (2 ^ 53)%Z with 9007199254740992%Z in ET.
  specialize (ET ltac:(lia)).
  set (Tz := Z.max 1 (max - min)) in *.
  assert (HTz : (1 <= Tz <= 562949953421312)%Z) by lia.
  assert (HxT : (d - min <= Tz)%Z) by lia.
  unfold fromPct, toPct, Date_of_number, TimeClip, Number.add,
    Number.multiply, Number.divide, Number.subtract, timeOf, getTime.
  set (T := total min max) in *.
  set (X := inject_Z (d - min)).
  set (M := inject_Z min).
  assert (HX : 0 <= X) by (change 0 with (inject_Z 0); subst X; rewrite <- Zle_Qle; lia).
  assert (HT1 : 1 <= T) by (rewrite ET; change 1 with (inject_Z 1); rewrite <- Zle_Qle; lia).
  assert (HXT : X <= T) by (rewrite ET; subst X; rewrite <- Zle_Qle; lia).
  assert (HT2 : T <= 562949953421312)
    by (rewrite ET; change 562949953421312 with (inject_Z 562949953421312);
        rewrite <- Zle_Qle; lia).
  assert (HM : -(281474976710656) <= M <= 281474976710656).
  { subst M.
    change (- (281474976710656)) with (inject_Z (-281474976710656)).
    change 281474976710656 with (inject_Z 281474976710656).
    rewrite <- !Zle_Qle. lia. }
  assert (HD : inject_Z d == M + X).
  { subst M X. rewrite <- inject_Z_plus. now replace (min + (d - min))%Z with d by lia. }
  assert (HiT : 0 <= / T) by (apply Qinv_le_0_compat; lra).
  (* the difference d - min is exact *)
  assert (E1 : binary64 (inject_Z d - M) == X).
  { subst M X.
    rewrite (binary64_comp _ (inject_Z (d - min)))
      by (unfold Qminus, Z.sub; rewrite inject_Z_plus, inject_Z_opp; reflexivity).
    apply binary64_Z. change (2 ^ 53)%Z with 9007199254740992%Z. lia. }
  rewrite (binary64_comp (100 * binary64 (inject_Z d - M)) (100 * X))
    by (rewrite E1; reflexivity).
  set (a2 := binary64 (100 * X)).
  assert (R2 : Qabs (a2 - 100 * X) <= (0 + 1) * u * (100 * X)).
  { apply binary64_step; [lra|lra|].
    setoid_replace (100 * X - 100 * X) with 0 by ring.
    change (Qabs 0) with 0. lra. }
  set (p := binary64 (a2 / T)).
  assert (R3 : Qabs (p - 100 * X * / T) <= (1 + 1) * u * (100 * X * / T)).
  { apply binary64_step; [|lra|].
    - apply Qmult_le_0_compat; lra.
    - unfold Qdiv. apply rel_scale; [exact HiT|].
      lra. }
  set (b1 := binary64 (p / 100)).
  assert (R4 : Qabs (b1 - 100 * X * / T * (1 # 100))
               <= (2 + 1) * u * (100 * X * / T * (1 # 100))).
  { assert (0 <= 100 * X * / T) by (apply Qmult_le_0_compat; lra).
    apply binary64_step; [lra|lra|].
    unfold Qdiv. change (/ 100) with (1 # 100). apply rel_scale; lra. }
  set (b2 := binary64 (b1 * T)).
  assert (R5 : Qabs (b2 - 100 * X * / T * (1 # 100) * T)
               <= (3 + 1) * u * (100 * X * / T * (1 # 100) * T)).
  { assert (0 <= 100 * X * / T) by (apply Qmult_le_0_compat; lra).
    apply binary64_step; [|lra|].
    - apply Qmult_le_0_compat; lra.
    - apply rel_scale; lra. }
  assert (EX : 100 * X * / T * (1 # 100) * T == X) by (field; lra).
  rewrite EX in R5. apply Qabs_Qle_condition in R5.
  pose proof (binary64_error (M + b2)) as R6.
  set (b3 := binary64 (M + b2)) in *.
  assert (HA : Qabs (M + b2) <= 1125899906842624).
  { apply Qabs_Qle_condition. lra. }
  apply Qabs_Qle_condition in R6.
  apply ToIntegerOrInfinity_near; rewrite HD; lra.
Qed.

End Mapper.

(** ** The default value *)

Lemma clampDate_above (d minD maxD : Date) :
  minD <= maxD -> maxD <= d -> clampDate d minD maxD = maxD.
Proof.
  intros H Hd. unfold clampDate.
  destruct (Z.ltb_spec d minD); [lia|].
  destruct (Z.gtb_spec d maxD); lia.
Qed.

(** C10.  Without the [value] prop the component is the component with
    [value = {start: min, end: max}]: the same [range], the same normalised
    range, the same commits from every drag frame and granularity switch;
    and for bounds with [min <= max] that normalised range is what the
    specification's steps produce from [{min, max}]. *)
Theorem value_defaults_to_bounds (min max : Date) (snap : bool)
  (g : Granularity) :
  let full := {| start := min; end_ := max |} in
  range min max None = full
  /\ normalizedRange min max None snap g
     = normalizedRange min max (Some full) snap g
  /\ (forall which dateAt,
        onPointerMove_frame min max None snap g which dateAt
        = onPointerMove_frame min max (Some full) snap g which dateAt)
  /\ (forall newG,
        handleGranularityChange min max None snap g newG
        = handleGranularityChange min max (Some full) snap g newG)
  /\ (min <= max ->
      normalizedRange min max None snap g = normalize_spec full min max g snap).
Proof.
  intros full. repeat split; try reflexivity.
  intros Hmm. unfold normalizedRange, normalize_spec, range, getTime.
  subst full. cbn [start end_].
  rewrite (clampDate_id min), (clampDate_id max) by lia.
  destruct (Z.gtb_spec min max); [lia|].
  destruct snap; [|reflexivity].
  rewrite (clampDate_above (ceilToGranularity max g))
    by (try apply le_ceilToGranularity; lia).
  pose proof (clampDate_in (floorToGranularity min g) min max Hmm).
  destruct (Z.gtb_spec (clampDate (floorToGranularity min g) min max) max);
    [lia|reflexivity].
Qed.

(** ** The granularity switch *)

Lemma getFullYear_UTC (t : Z) : getFullYear (UTC t) = YearFromTime t.
Proof. unfold getFullYear. now rewrite LocalTime_UTC. Qed.

Lemma getMonth_UTC (t : Z) : getMonth (UTC t) = MonthFromTime t.
Proof. unfold getMonth. now rewrite LocalTime_UTC. Qed.

Lemma getDate_UTC (t : Z) : getDate (UTC t) = DateFromTime t.
Proof. unfold getDate. now rewrite LocalTime_UTC. Qed.

Lemma UTC_le (t1 t2 : Z) : UTC t1 <= UTC t2 <-> t1 <= t2.
Proof. unfold UTC. lia. Qed.

(** Evaluates the constructor and the getters on literal calendar days, in
    any time zone. *)
Ltac literal_dates :=
  repeat (unfold newDate;
          rewrite ?getFullYear_UTC, ?getMonth_UTC, ?getDate_UTC;
          repeat match goal with
            | |- context [MakeFullYear ?y] =>
                let v := eval vm_compute in (MakeFullYear y) in
                lazymatch v with Zpos _ => idtac | Zneg _ => idtac | Z0 => idtac end;
                change (MakeFullYear y) with v
            | |- context [MakeDate ?k 0] =>
                let v := eval vm_compute in (MakeDate k 0) in
                lazymatch v with Zpos _ => idtac | Zneg _ => idtac | Z0 => idtac end;
                change (MakeDate k 0) with v
            | |- context [YearFromTime ?t] =>
                let v := eval vm_compute in (YearFromTime t) in
                lazymatch v with Zpos _ => idtac | Zneg _ => idtac | Z0 => idtac end;
                change (YearFromTime t) with v
            | |- context [MonthFromTime ?t] =>
                let v := eval vm_compute in (MonthFromTime t) in
                lazymatch v with Zpos _ => idtac | Zneg _ => idtac | Z0 => idtac end;
                change (MonthFromTime t) with v
            | |- context [DateFromTime ?t] =>
                let v := eval vm_compute in (DateFromTime t) in
                lazymatch v with Zpos _ => idtac | Zneg _ => idtac | Z0 => idtac end;
                change (DateFromTime t) with v
            end;
          cbn [Z.add Z.mul Z.div Pos.add Pos.succ Pos.mul]).

Ltac utc_lia := unfold UTC in *; lia.

(** C5.  A granularity switch commits the current (normalised) selection
    re-floored and re-ceiled to the new granularity and clamped; from day to
    year on the selection 2024-03-05 to 2024-03-08 with [max] = 2024-12-31
    (and [min] at or before 2024-01-01) it commits 2024-01-01 to
    2024-12-31. *)
Theorem granularity_switch_resnaps :
  (forall (min max : Date) (value : option DateRange) (snap : bool)
          (g newG : Granularity),
      let current := normalizedRange min max value snap g in
      handleGranularityChange min max value snap g newG
      = (newG,
         {| start :=
              clampDate (floorToGranularity (start current) newG) min max;
            end_ :=
              clampDate (ceilToGranularity (end_ current) newG) min max |}))
  /\ (forall (min : Date) (snap : bool),
        min <= newDate 2024 0 1 ->
        handleGranularityChange min (newDate 2024 11 31)
          (Some {| start := newDate 2024 2 5; end_ := newDate 2024 2 8 |})
          snap day year
        = (year,
           {| start := newDate 2024 0 1; end_ := newDate 2024 11 31 |})).
Proof.
  split; [reflexivity|].
  intros min snap Hmin.
  assert (Hc : normalizedRange min (newDate 2024 11 31)
                 (Some {| start := newDate 2024 2 5;
                          end_ := newDate 2024 2 8 |}) snap day
               = {| start := newDate 2024 2 5; end_ := newDate 2024 2 8 |}).
  { unfold normalizedRange, range, getTime. cbn [start end_].
    revert Hmin. literal_dates. intros Hmin.
    rewrite !clampDate_id by utc_lia. order_cases; [utc_lia|].
    destruct snap; [|reflexivity].
    unfold ceilToGranularity, floorToGranularity, getTime. literal_dates.
    rewrite Z.eqb_refl. rewrite !clampDate_id by utc_lia. reflexivity. }
  unfold handleGranularityChange. rewrite Hc. cbn [start end_].
  f_equal. revert Hmin.
  unfold ceilToGranularity, floorToGranularity, getTime.
  literal_dates. intros Hmin.
  destruct (Z.eqb_spec (UTC 1704067200000) (UTC 1709856000000));
    [utc_lia|].
  literal_dates.
  rewrite clampDate_id by utc_lia. rewrite clampDate_above by utc_lia.
  reflexivity.
Qed.

(** ** Calendar periods: what floor and ceil compute in literal years *)

Lemma granularity_eq_day (g : Granularity) : g = day \/ g <> day.
Proof. destruct g; [now left|right..]; discriminate. Qed.

Lemma period_contains (g : Granularity) (n : Z) :
  periodStart g n <= n < periodNext g n.
Proof.
  pose proof (day_in_month n) as [Hm [Hlo Hhi]]. cbv zeta in *.
  set (y := YearFromDay n) in *.
  set (m := MonthOfYearDay (n - DayFromYear y) (LeapOfYear y)) in *.
  pose proof (quarter_month m Hm).
  destruct g; unfold periodStart, periodNext; fold y; fold m.
  - lia.
  - lia.
  - pose proof (MakeDay_month_mono y (m / 3 * 3) m 1).
    pose proof (MakeDay_month_mono y (m + 1) (m / 3 * 3 + 3) 1). lia.
  - pose proof (MakeDay_month_mono y 0 m 1).
    pose proof (MakeDay_month_mono y (m + 1) 12 1). lia.
Qed.

(** Days between two firsts of months of one year are in that year, in a
    month between the two. *)
Lemma months_of_day (n y m1 m2 : Z) :
  0 <= m1 -> m1 < m2 -> m2 <= 12 ->
  MakeDay y m1 1 <= n < MakeDay y m2 1 ->
  YearFromDay n = y
  /\ m1 <= MonthOfYearDay (n - DayFromYear y) (LeapOfYear y) < m2.
Proof.
  intros H1 H12 H2 Hn.
  assert (Ey : YearFromDay n = y).
  { apply YearFromDay_unique.
    pose proof (MakeDay_month_mono y 0 m1 1).
    pose proof (MakeDay_month_mono y m2 12 1).
    pose proof (MakeDay_next_year y).
    rewrite (MakeDay_month (y + 1) 0), (MakeDay_month y 0) in * by lia.
    revert H H3. dbm. lia. }
  split; [exact Ey|].
  pose proof (day_in_month n) as [Hm [Hlo Hhi]]. cbv zeta in *.
  rewrite Ey in *.
  set (m := MonthOfYearDay (n - DayFromYear y) (LeapOfYear y)) in *.
  destruct (Z.lt_ge_cases m m1) as [Hlt|Hge].
  - pose proof (MakeDay_month_mono y (m + 1) m1 1). lia.
  - destruct (Z.lt_ge_cases m m2) as [Hlt2|Hge2]; [lia|].
    pose proof (MakeDay_month_mono y m2 m 1). lia.
Qed.

Lemma quarter_of_month (q m : Z) :
  q = 0 \/ q = 3 \/ q = 6 \/ q = 9 -> q <= m < q + 3 -> m / 3 * 3 = q.
Proof. intros. zdiv. Qed.

Lemma quarter_start_cases (m : Z) :
  0 <= m <= 11 ->
  m / 3 * 3 = 0 \/ m / 3 * 3 = 3 \/ m / 3 * 3 = 6 \/ m / 3 * 3 = 9.
Proof. intros. zdiv. Qed.

(** Every day of a period has that period. *)
Lemma period_same (g : Granularity) (n n' : Z) :
  periodStart g n <= n' < periodNext g n ->
  periodStart g n' = periodStart g n /\ periodNext g n' = periodNext g n
  /\ (g <> day -> YearFromDay n' = YearFromDay n).
Proof.
  pose proof (day_in_month n) as [Hm _]. cbv zeta in Hm.
  unfold periodStart, periodNext.
  set (y := YearFromDay n) in *.
  set (m := MonthOfYearDay (n - DayFromYear y) (LeapOfYear y)) in *.
  pose proof (quarter_month m Hm) as Hq.
  destruct g; intros Hn.
  - assert (n' = n) by lia. subst n'. repeat split; congruence.
  - destruct (months_of_day n' y m (m + 1)) as [Ey Em]; try lia.
    rewrite Ey.
    replace (MonthOfYearDay (n' - DayFromYear y) (LeapOfYear y)) with m
      by lia.
    auto.
  - destruct (months_of_day n' y (m / 3 * 3) (m / 3 * 3 + 3)) as [Ey Em];
      try lia.
    rewrite Ey.
    rewrite (quarter_of_month (m / 3 * 3)
               (MonthOfYearDay (n' - DayFromYear y) (LeapOfYear y)));
      auto using quarter_start_cases.
  - destruct (months_of_day n' y 0 12) as [Ey Em]; try lia.
    rewrite Ey. auto.
Qed.

(** The first day of a period, and the first day of the next one, start
    their own periods. *)
Lemma periodStart_idem (g : Granularity) (n : Z) :
  periodStart g (periodStart g n) = periodStart g n.
Proof.
  pose proof (period_contains g n).
  apply (period_same g n (periodStart g n)). lia.
Qed.

Lemma first_of_month_day (y k : Z) :
  0 <= k <= 11 ->
  YearFromDay (MakeDay y k 1) = y
  /\ MonthOfYearDay (MakeDay y k 1 - DayFromYear y) (LeapOfYear y) = k.
Proof.
  intros Hk. apply month_of_day; [exact Hk|].
  pose proof (LeapOfYear_range y).
  pose proof (DaysBeforeMonth_lt k (LeapOfYear y)).
  rewrite !MakeDay_month by lia. lia.
Qed.

Lemma periodStart_first (g : Granularity) (y k : Z) :
  0 <= k <= 11 -> k / 3 * 3 = k \/ g = month ->
  k = 0 \/ g <> year ->
  periodStart g (MakeDay y k 1) = MakeDay y k 1.
Proof.
  intros Hk Hq H0. destruct (first_of_month_day y k Hk) as [Ey Em].
  unfold periodStart. rewrite Ey, Em.
  destruct g; try reflexivity.
  - destruct Hq as [->|]; [reflexivity|discriminate].
  - destruct H0 as [->|]; [reflexivity|congruence].
Qed.

Lemma periodStart_next (g : Granularity) (n : Z) :
  periodStart g (periodNext g n) = periodNext g n.
Proof.
  pose proof (day_in_month n) as [Hm _]. cbv zeta in Hm.
  unfold periodNext.
  set (y := YearFromDay n) in *.
  set (m := MonthOfYearDay (n - DayFromYear y) (LeapOfYear y)) in *.
  pose proof (quarter_month m Hm) as Hq.
  pose proof (quarter_start_cases m Hm) as Hc.
  destruct g.
  - reflexivity.
  - destruct (Z.eq_dec (m + 1) 12) as [->|].
    + rewrite <- MakeDay_next_year.
      apply periodStart_first; [lia|now right|now right].
    + apply periodStart_first; [lia|now right|now right].
  - destruct (Z.eq_dec (m / 3 * 3 + 3) 12) as [->|].
    + rewrite <- MakeDay_next_year.
      apply periodStart_first; [lia|now left|now right].
    + apply periodStart_first; [lia| |now right].
      left. zdiv.
  - rewrite <- MakeDay_next_year.
    apply periodStart_first; [lia|now left|now left].
Qed.

Lemma localDayOf_midnight (k : Z) : localDayOf (UTC (MakeDate k 0)) = k.
Proof.
  unfold localDayOf. rewrite LocalTime_UTC. unfold MakeDate.
  rewrite Z.add_0_r. apply Day_mul.
Qed.

Lemma YearFromDay_periodStart (g : Granularity) (n : Z) :
  YearFromDay (periodStart g n) = YearFromDay n.
Proof.
  destruct (granularity_eq_day g) as [->|Hne]; [reflexivity|].
  pose proof (period_contains g n).
  apply (period_same g n (periodStart g n)); [lia|exact Hne].
Qed.

Lemma YearFromDay_periodNext (g : Granularity) (n : Z) :
  YearFromDay n <= YearFromDay (periodNext g n) <= YearFromDay n + 1.
Proof.
  pose proof (period_contains g n) as [_ Hlt].
  split; [apply YearFromDay_mono; lia|].
  pose proof (day_in_month n) as [Hm [_ Hhi]]. cbv zeta in *.
  set (y := YearFromDay n) in *.
  set (m := MonthOfYearDay (n - DayFromYear y) (LeapOfYear y)) in *.
  pose proof (quarter_month m Hm).
  assert (Hle : periodNext g n <= MakeDay (y + 1) 0 1).
  { rewrite MakeDay_next_year. unfold periodNext. fold y. fold m.
    destruct g.
    - pose proof (MakeDay_month_mono y (m + 1) 12 1). lia.
    - apply MakeDay_month_mono; lia.
    - apply MakeDay_month_mono; lia.
    - lia. }
  destruct (first_of_month_day (y + 1) 0) as [Ey _]; [lia|].
  rewrite <- Ey. apply YearFromDay_mono. exact Hle.
Qed.

(** In a literal year the floor is the local midnight that starts the
    period of the date. *)
Lemma floorToGranularity_periodStart (d : Date) (g : Granularity) :
  literal_year (getFullYear d) ->
  floorToGranularity d g = UTC (MakeDate (periodStart g (localDayOf d)) 0).
Proof.
  intros Hy. apply MakeFullYear_literal in Hy.
  unfold floorToGranularity, newDate, periodStart.
  rewrite Hy, <- getFullYear_day, <- getMonth_day.
  destruct g; try reflexivity. now rewrite MakeDay_getters.
Qed.

(** Off a boundary, in a literal year (followed by a literal year when the
    granularity is the year), the ceil is the local midnight that starts the
    next period. *)
Lemma ceilToGranularity_periodNext (d : Date) (g : Granularity) :
  literal_year (getFullYear d) ->
  (g = year -> literal_year (getFullYear d + 1)) ->
  floorToGranularity d g <> d ->
  ceilToGranularity d g = UTC (MakeDate (periodNext g (localDayOf d)) 0).
Proof.
  intros Hy Hy1 Hne. pose proof (MakeFullYear_literal _ Hy) as Ey.
  pose proof (getMonth_range d) as Hm.
  pose proof (quarter_month _ Hm) as Hq.
  unfold ceilToGranularity, getTime.
  destruct (Z.eqb_spec (floorToGranularity d g) d); [contradiction|].
  unfold periodNext. rewrite <- getFullYear_day, <- getMonth_day.
  destruct g; cbn [floorToGranularity].
  - unfold newDate. rewrite Ey.
    now rewrite (MakeDay_date _ _ (getDate d) (getDate d + 1)),
      MakeDay_getters, Z.add_simpl_l.
  - destruct (getters_first_of_month (getFullYear d) (getMonth d) Hm)
      as [-> ->].
    unfold newDate. now rewrite MakeFullYear_idem, Ey.
  - destruct (getters_first_of_month (getFullYear d) (getMonth d / 3 * 3))
      as [-> ->]; [lia|].
    unfold newDate. now rewrite MakeFullYear_idem, Ey.
  - destruct (getters_first_of_month (getFullYear d) 0) as [-> _]; [lia|].
    unfold newDate. rewrite Ey, (MakeFullYear_literal _ (Hy1 eq_refl)).
    now rewrite MakeDay_next_year.
Qed.

(** *** Floor and ceil outside the years the constructor rewrites *)

Lemma ceilToGranularity_fixed (d : Date) (g : Granularity) :
  floorToGranularity d g = d -> ceilToGranularity d g = d.
Proof.
  intros E. unfold ceilToGranularity, getTime. rewrite E.
  now rewrite Z.eqb_refl.
Qed.

Lemma floorToGranularity_on_boundary (d : Date) (g : Granularity) :
  literal_year (getFullYear d) -> on_boundary (floorToGranularity d g) g.
Proof.
  intros Hy. unfold on_boundary.
  rewrite (floorToGranularity_periodStart d g Hy).
  rewrite floorToGranularity_periodStart.
  - now rewrite localDayOf_midnight, periodStart_idem.
  - rewrite getFullYear_day, localDayOf_midnight, YearFromDay_periodStart.
    exact Hy.
Qed.

(** Off a boundary, and with the year of [d] outside -1..99, the ceil is the
    start of the next period: it is above the floor, it is a boundary, and
    every date from the floor up to it has the floor of [d]. *)
Lemma ceilToGranularity_next_period (d : Date) (g : Granularity) :
  getFullYear d < -1 \/ 99 < getFullYear d ->
  floorToGranularity d g <> d ->
  floorToGranularity d g < ceilToGranularity d g
  /\ on_boundary (ceilToGranularity d g) g
  /\ (forall t : Date,
        floorToGranularity d g <= t < ceilToGranularity d g ->
        floorToGranularity t g = floorToGranularity d g).
Proof.
  intros Hy Hne.
  assert (Hl : literal_year (getFullYear d)) by (unfold literal_year; lia).
  assert (Hl1 : literal_year (getFullYear d + 1))
    by (unfold literal_year; lia).
  rewrite (ceilToGranularity_periodNext d g Hl (fun _ => Hl1) Hne).
  rewrite (floorToGranularity_periodStart d g Hl).
  pose proof (period_contains g (localDayOf d)) as Hc.
  pose proof (YearFromDay_periodNext g (localDayOf d)) as Hn.
  rewrite <- getFullYear_day in Hn.
  split; [|split].
  - apply midnight_gt. rewrite localDayOf_midnight. lia.
  - unfold on_boundary. rewrite floorToGranularity_periodStart.
    + now rewrite localDayOf_midnight, periodStart_next.
    + rewrite getFullYear_day, localDayOf_midnight. unfold literal_year. lia.
  - intros t [Hlo Hhi]. apply midnight_le in Hlo. apply midnight_gt in Hhi.
    destruct (period_same g (localDayOf d) (localDayOf t) (conj Hlo Hhi))
      as (Es & _ & Ey).
    rewrite floorToGranularity_periodStart; [now rewrite Es|].
    destruct (granularity_eq_day g) as [->|Hg].
    + unfold periodStart, periodNext in Hlo, Hhi.
      assert (localDayOf t = localDayOf d) by lia.
      rewrite getFullYear_day. replace (localDayOf t) with (localDayOf d).
      exact Hl.
    + rewrite getFullYear_day, (Ey Hg). exact Hl.
Qed.

(** *** Snapped endpoints outside the years the constructor rewrites *)

Lemma clamp_floor_snapped (min max d : Date) (g : Granularity) :
  literal_year (getFullYear d) ->
  snapped min max g (clampDate (floorToGranularity d g) min max).
Proof.
  intros Hy. unfold snapped.
  destruct (clampDate_cases (floorToGranularity d g) min max)
    as [-> | [-> | ->]]; auto.
  left. now apply floorToGranularity_on_boundary.
Qed.

Lemma clamp_ceil_snapped (min max d : Date) (g : Granularity) :
  getFullYear d < -1 \/ 99 < getFullYear d ->
  snapped min max g (clampDate (ceilToGranularity d g) min max).
Proof.
  intros Hy. unfold snapped.
  destruct (clampDate_cases (ceilToGranularity d g) min max)
    as [-> | [-> | ->]]; auto.
  left. destruct (Z.eq_dec (floorToGranularity d g) d) as [E|Hne].
  - rewrite (ceilToGranularity_fixed d g E). exact E.
  - now apply ceilToGranularity_next_period.
Qed.

(** With snap on and the years between the bounds outside -1..99, both ends
    of the normalised range and of a committed drag are on a boundary of the
    granularity or on a bound. *)
Lemma normalizedRange_snapped (min max : Date) (value : option DateRange)
  (g : Granularity) :
  min <= max -> getFullYear max < -1 \/ 99 < getFullYear min ->
  let r := normalizedRange min max value true g in
  snapped min max g (start r) /\ snapped min max g (end_ r).
Proof.
  intros Hmm Hy. unfold normalizedRange.
  pose proof (clamped_ordered min max (start (range min max value))
                (end_ (range min max value)) Hmm) as H. cbv zeta in H.
  destruct (if getTime (clampDate (start (range min max value)) min max) >?
               getTime (clampDate (end_ (range min max value)) min max)
            then _ else _) as [s e].
  cbn [fst snd] in H. destruct H as (H1 & H2 & H3). cbn [start end_].
  assert (Hs : min <= s <= max) by lia. assert (He : min <= e <= max) by lia.
  destruct Hs as [Hs1 Hs2]. destruct He as [He1 He2].
  apply getFullYear_mono in Hs1, Hs2, He1, He2.
  split; [apply clamp_floor_snapped; unfold literal_year
         |apply clamp_ceil_snapped]; lia.
Qed.

Lemma commitDrag_snapped (min max : Date) (g : Granularity)
  (newStart newEnd : Date) :
  getFullYear newStart < -1 \/ 99 < getFullYear newStart ->
  getFullYear newEnd < -1 \/ 99 < getFullYear newEnd ->
  let r := commitDrag min max true g newStart newEnd in
  snapped min max g (start r) /\ snapped min max g (end_ r).
Proof.
  intros Hs He. unfold commitDrag, getTime.
  assert (Hls : literal_year (getFullYear newStart))
    by (unfold literal_year; lia).
  assert (Hle : literal_year (getFullYear newEnd))
    by (unfold literal_year; lia).
  destruct (newStart >? newEnd);
    match goal with
    | |- context [clampDate ?a min max >? clampDate ?b min max] =>
        destruct (clampDate a min max >? clampDate b min max)
    end; cbn [start end_];
    auto using clamp_floor_snapped, clamp_ceil_snapped.
Qed.

(** ** The session *)

(** With literal years between the bounds, whatever the state and the
    event, a range handed to [onChange] is ordered and inside the bounds. *)
Lemma step_commit_in_bounds (min max : Date) (snap : bool) (s : Session)
  (ev : Event) (r : DateRange) :
  min <= max -> literal_years min max ->
  snd (step min max snap s ev) = Some r -> in_bounds min max r.
Proof.
  intros Hmm Hy. destruct ev; cbn [step].
  - discriminate.
  - destruct (dragging s); discriminate.
  - discriminate.
  - destruct (raf s) as [f|]; [|discriminate].
    destruct (dragging s) as [which|]; [|discriminate].
    cbn [snd]. intros [= <-]. unfold onPointerMove_frame.
    destruct which; [| |destruct (slideWindow _ _ _ _ _ _)];
      now apply commitDrag_in_bounds.
  - pose proof (handleGranularityChange_in_bounds min max
                  (Some (dateRange s)) snap (granularity s) g Hmm Hy) as H.
    destruct (handleGranularityChange min max (Some (dateRange s)) snap
                (granularity s) g) as [g' r'].
    cbn [snd] in *. now intros [= <-].
Qed.

Lemma run_commits_in_bounds (min max : Date) (snap : bool)
  (evs : list Event) (s : Session) :
  min <= max -> literal_years min max ->
  Forall (in_bounds min max) (snd (run min max snap s evs)).
Proof.
  intros Hmm Hy. revert s.
  induction evs as [|ev evs IH]; intros s; cbn [run snd]; [constructor|].
  pose proof (step_commit_in_bounds min max snap s ev) as Hstep.
  destruct (step min max snap s ev) as [s1 out].
  specialize (IH s1). destruct (run min max snap s1 evs) as [s2 outs].
  cbn [snd] in *. destruct out as [r|]; [|exact IH].
  constructor; [now apply Hstep|exact IH].
Qed.

(** While a drag lasts, the frame after a move commits what that move's
    callback computes for the date under the pointer. *)
Lemma frame_commits_pending_move (min max : Date) (snap : bool)
  (s : Session) (which : DragTarget) (dateAt : Date) :
  dragging s = Some which ->
  snd (run min max snap s [PointerMove dateAt; AnimationFrame])
  = [onPointerMove_frame min max (Some (dateRange s)) snap (granularity s)
       which dateAt].
Proof.
  intros H. cbn [run step]. rewrite H.
  cbn [raf dragging dateRange granularity step frame_value frame_granularity
       frame_dateAt].
  reflexivity.
Qed.

(** A pointer-up that arrives before the frame leaves the callback with a
    [null] target: the frame commits nothing for the pending move. *)
Lemma pointer_up_drops_pending_move (min max : Date) (snap : bool)
  (s : Session) (dateAt : Date) :
  snd (run min max snap s [PointerMove dateAt; PointerUp; AnimationFrame])
  = [].
Proof.
  cbn [run step]. destruct (dragging s); [reflexivity|].
  cbn [raf dragging]. destruct (raf s); reflexivity.
Qed.


(** ** The plugin: bounds of the column, selection, filtered rows *)

(** *** The selection when the bounds change *)

Lemma reclampRange_inside (prev : DateRange) (minDate maxDate : Date) :
  minDate <= maxDate ->
  let r := reclampRange prev minDate maxDate in
  (minDate <= start r <= maxDate /\ minDate <= end_ r <= maxDate)
  /\ (start prev <= end_ prev -> start r <= end_ r).
Proof.
  intros Hmm. unfold reclampRange. cbn [start end_].
  destruct (Z.ltb_spec (start prev) minDate), (Z.gtb_spec (start prev) maxDate),
    (Z.gtb_spec (end_ prev) maxDate), (Z.ltb_spec (end_ prev) minDate); lia.
Qed.

Lemma reclampRange_fixed (p : DateRange) (minDate maxDate : Date) :
  minDate <= start p <= maxDate -> minDate <= end_ p <= maxDate ->
  reclampRange p minDate maxDate = p.
Proof.
  destruct p as [s e]. cbn [start end_]. intros Hs He. unfold reclampRange.
  cbn [start end_].
  destruct (Z.ltb_spec s minDate), (Z.gtb_spec s maxDate),
    (Z.gtb_spec e maxDate), (Z.ltb_spec e minDate); try lia; reflexivity.
Qed.

(** X8. After the bounds change, the stored selection lies inside the new
    bounds, and an ordered selection stays ordered. *)
Theorem reclampRange_in_bounds (prev : DateRange) (minDate maxDate : Date) :
  minDate <= maxDate ->
  let r := reclampRange prev minDate maxDate in
  (minDate <= start r <= maxDate /\ minDate <= end_ r <= maxDate)
  /\ (start prev <= end_ prev -> start r <= end_ r).
Proof. exact (reclampRange_inside prev minDate maxDate). Qed.

(** X9. A selection with both ends inside the bounds is kept as it is, and
    the update is idempotent: running the effect again changes nothing. *)
Theorem reclampRange_stable (prev : DateRange) (minDate maxDate : Date) :
  minDate <= maxDate ->
  (minDate <= start prev <= maxDate -> minDate <= end_ prev <= maxDate ->
   reclampRange prev minDate maxDate = prev)
  /\ reclampRange (reclampRange prev minDate maxDate) minDate maxDate
     = reclampRange prev minDate maxDate.
Proof.
  intros Hmm. split; [apply reclampRange_fixed|].
  destruct (reclampRange_inside prev minDate maxDate Hmm) as [[Hs He] _].
  now apply reclampRange_fixed.
Qed.

(** X10. An ordered selection that lies wholly outside the new bounds is not
    pinned to the nearer bound: it becomes the full range. *)
Theorem reclampRange_outside_resets (prev : DateRange)
  (minDate maxDate : Date) :
  start prev <= end_ prev ->
  end_ prev < minDate \/ maxDate < start prev ->
  minDate <= maxDate ->
  reclampRange prev minDate maxDate = {| start := minDate; end_ := maxDate |}.
Proof.
  intros Ho Hout Hmm. unfold reclampRange.
  destruct (Z.ltb_spec (start prev) minDate), (Z.gtb_spec (start prev) maxDate),
    (Z.gtb_spec (end_ prev) maxDate), (Z.ltb_spec (end_ prev) minDate);
    try lia; reflexivity.
Qed.

(** *** The bounds of the column and the filtered rows *)

Section PluginFacts.

Variable Cell : Type.
Variable toDate : Cell -> option Date.
Variable argumentLimit : Z.

Lemma fold_min_spec (x : Z) (xs : list Z) :
  In (fold_left Z.min xs x) (x :: xs)
  /\ (forall y, In y (x :: xs) -> fold_left Z.min xs x <= y).
Proof.
  revert x.
  induction xs as [|a xs IH]; intros x; cbn [fold_left].
  - split; [now left|]. intros y [<-|[]]. lia.
  - destruct (IH (Z.min x a)) as [Hin Hle]. split.
    + destruct Hin as [E|Hin]; [|now right; right].
      rewrite <- E. destruct (Z.min_spec x a) as [[_ ->]|[_ ->]];
        [now left|now right; left].
    + intros y [<-|[<-|Hy]].
      * specialize (Hle (Z.min x a) (or_introl eq_refl)). lia.
      * specialize (Hle (Z.min x a) (or_introl eq_refl)). lia.
      * apply Hle. now right.
Qed.

Lemma fold_max_spec (x : Z) (xs : list Z) :
  In (fold_left Z.max xs x) (x :: xs)
  /\ (forall y, In y (x :: xs) -> y <= fold_left Z.max xs x).
Proof.
  revert x.
  induction xs as [|a xs IH]; intros x; cbn [fold_left].
  - split; [now left|]. intros y [<-|[]]. lia.
  - destruct (IH (Z.max x a)) as [Hin Hle]. split.
    + destruct Hin as [E|Hin]; [|now right; right].
      rewrite <- E. destruct (Z.max_spec x a) as [[_ ->]|[_ ->]];
        [now right; left|now left].
    + intros y [<-|[<-|Hy]].
      * specialize (Hle (Z.max x a) (or_introl eq_refl)). lia.
      * specialize (Hle (Z.max x a) (or_introl eq_refl)). lia.
      * apply Hle. now right.
Qed.

Lemma In_validDates (cells : list Cell) (d : Date) :
  In d (validDates toDate cells)
  <-> exists c, In c cells /\ toDate c = Some d.
Proof.
  induction cells as [|c cells IH]; cbn [validDates].
  - split; [intros []|intros (c & [] & _)].
  - destruct (toDate c) as [d'|] eqn:E.
    + cbn [In]. rewrite IH. split.
      * intros [<-|(c' & Hc' & E')].
        -- exists c. split; [now left|exact E].
        -- exists c'. split; [now right|exact E'].
      * intros (c' & [<-|Hc'] & E').
        -- left. congruence.
        -- right. now exists c'.
    + rewrite IH. split.
      * intros (c' & Hc' & E'). exists c'. split; [now right|exact E'].
      * intros (c' & [<-|Hc'] & E'); [congruence|now exists c'].
Qed.

Lemma fallback_ordered : newDate 2024 0 1 <= newDate 2024 11 31.
Proof. literal_dates. utc_lia. Qed.

(** What the memo returns, by the valid dates of the column. *)
Lemma minMaxDates_cases (col : option (list Cell)) :
  match spreadDates toDate col with
  | [] =>
      minMaxDates toDate argumentLimit col
      = Some (newDate 2024 0 1, newDate 2024 11 31)
  | d :: ds =>
      minMaxDates toDate argumentLimit col
      = if Z.of_nat (List.length (d :: ds)) <=? argumentLimit
        then Some (fold_left Z.min ds d, fold_left Z.max ds d)
        else None
  end.
Proof.
  unfold spreadDates, minMaxDates, Math_min, Math_max.
  destruct col as [[|c cells]|]; try reflexivity.
  destruct (validDates toDate (c :: cells)) as [|d ds]; [reflexivity|].
  repeat match goal with
         | |- context [if ?b then _ else _] => destruct b eqn:?
         end;
    try reflexivity; exfalso;
    match goal with
    | E1 : _ = true, E2 : _ = false |- _ =>
        discriminate (eq_trans (eq_sym E1) E2)
    end.
Qed.

Lemma minMaxDates_le (col : option (list Cell)) (minDate maxDate : Date) :
  minMaxDates toDate argumentLimit col = Some (minDate, maxDate) ->
  minDate <= maxDate.
Proof.
  intros E. pose proof (minMaxDates_cases col) as C.
  destruct (spreadDates toDate col) as [|d ds].
  - rewrite C in E. injection E as <- <-. apply fallback_ordered.
  - rewrite C in E.
    destruct (Z.of_nat (List.length (d :: ds)) <=? argumentLimit);
      [|discriminate].
    injection E as <- <-.
    destruct (fold_min_spec d ds) as [_ Hmin].
    destruct (fold_max_spec d ds) as [_ Hmax].
    specialize (Hmin d (or_introl eq_refl)).
    specialize (Hmax d (or_introl eq_refl)). lia.
Qed.

Lemma minMaxDates_bounds (cells : list Cell) (minDate maxDate : Date) :
  minMaxDates toDate argumentLimit (Some cells) = Some (minDate, maxDate) ->
  forall c d, In c cells -> toDate c = Some d -> minDate <= d <= maxDate.
Proof.
  intros E c d Hc Ed. pose proof (minMaxDates_cases (Some cells)) as C.
  cbn [spreadDates] in C.
  pose proof (In_validDates cells) as Hv.
  destruct (validDates toDate cells) as [|d0 ds].
  - exfalso. apply (proj2 (Hv d)). now exists c.
  - rewrite C in E.
    destruct (Z.of_nat (List.length (d0 :: ds)) <=? argumentLimit);
      [|discriminate].
    injection E as <- <-.
    destruct (fold_min_spec d0 ds) as [_ Hmin].
    destruct (fold_max_spec d0 ds) as [_ Hmax].
    assert (In d (d0 :: ds)) by (apply Hv; now exists c).
    split; [now apply Hmin|now apply Hmax].
Qed.

(** X1. The memo returns bounds exactly when the column has no valid date
    or its valid dates are no more than the engine accepts as the arguments
    of one call, and the bounds it returns are ordered:
    [minDate <= maxDate], whatever the column holds.  With more valid dates
    than that, [Math.min(...)] throws. *)
Theorem minMaxDates_ordered (col : option (list Cell)) :
  match minMaxDates toDate argumentLimit col with
  | Some (minDate, maxDate) =>
      minDate <= maxDate
      /\ (spreadDates toDate col = []
          \/ Z.of_nat (List.length (spreadDates toDate col)) <= argumentLimit)
  | None =>
      spreadDates toDate col <> []
      /\ argumentLimit < Z.of_nat (List.length (spreadDates toDate col))
  end.
Proof.
  pose proof (minMaxDates_cases col) as C.
  pose proof (minMaxDates_le col) as Hle.
  destruct (spreadDates toDate col) as [|d ds].
  - rewrite C in *. split; [now apply Hle|now left].
  - destruct (Z.leb_spec (Z.of_nat (List.length (d :: ds))) argumentLimit)
      as [Hl|Hl]; rewrite C in *.
    + split; [now apply Hle|now right].
    + split; [discriminate|exact Hl].
Qed.

(** X2. When the column has a valid date and its valid dates are no more
    than the engine accepts as arguments, the bounds are the earliest and
    the latest valid date of the column: both occur in it, and every valid
    date lies between them. *)
Theorem minMaxDates_extremes (cells : list Cell) (c0 : Cell) (d0 : Date) :
  In c0 cells -> toDate c0 = Some d0 ->
  Z.of_nat (List.length (validDates toDate cells)) <= argumentLimit ->
  exists minDate maxDate,
    minMaxDates toDate argumentLimit (Some cells) = Some (minDate, maxDate)
    /\ (exists c, In c cells /\ toDate c = Some minDate)
    /\ (exists c, In c cells /\ toDate c = Some maxDate)
    /\ (forall c d,
          In c cells -> toDate c = Some d -> minDate <= d <= maxDate).
Proof.
  intros Hc0 E0 Hl. pose proof (minMaxDates_cases (Some cells)) as C.
  cbn [spreadDates] in C.
  pose proof (minMaxDates_bounds cells) as Hb.
  pose proof (In_validDates cells) as Hv.
  destruct (validDates toDate cells) as [|d ds].
  - exfalso. apply (proj2 (Hv d0)). now exists c0.
  - destruct (Z.leb_spec (Z.of_nat (List.length (d :: ds))) argumentLimit);
      [|lia].
    eexists _, _. split; [exact C|].
    destruct (fold_min_spec d ds) as [Imin _].
    destruct (fold_max_spec d ds) as [Imax _].
    split; [now apply Hv|]. split; [now apply Hv|]. now apply Hb.
Qed.

(** X3. Without a column, with an empty column, or with no valid date in it,
    the bounds fall back to the year 2024: 1 January to 31 December. *)
Theorem minMaxDates_fallback (col : option (list Cell)) :
  (forall cells c, col = Some cells -> In c cells -> toDate c = None) ->
  minMaxDates toDate argumentLimit col
  = Some (newDate 2024 0 1, newDate 2024 11 31).
Proof.
  intros H. pose proof (minMaxDates_cases col) as C.
  destruct col as [cells|]; [|exact C]. cbn [spreadDates] in C.
  pose proof (In_validDates cells) as Hv.
  destruct (validDates toDate cells) as [|d ds]; [exact C|].
  destruct (proj1 (Hv d) (or_introl eq_refl)) as (c' & Hc' & E').
  rewrite (H cells c' eq_refl Hc') in E'. discriminate.
Qed.


Lemma filterRows_spec (cells : list Cell) (r : DateRange) (k i : nat) :
  In i (filterRows toDate k cells r)
  <-> (k <= i)%nat
      /\ exists c d, nth_error cells (i - k) = Some c /\ toDate c = Some d
                     /\ start r <= d <= end_ r.
Proof.
  revert k. induction cells as [|c cells IH]; intros k; cbn [filterRows].
  - split; [intros []|]. intros (_ & c & d & E & _).
    destruct (i - k)%nat; discriminate.
  - assert (Hrest : In i (filterRows toDate (S k) cells r)
                    <-> (k < i)%nat
                        /\ exists c' d, nth_error (c :: cells) (i - k) = Some c'
                                        /\ toDate c' = Some d
                                        /\ start r <= d <= end_ r).
    { rewrite IH. split.
      - intros (Hk & c' & d & E & H). split; [lia|]. exists c', d.
        replace (i - k)%nat with (S (i - S k)) by lia. now split.
      - intros (Hk & c' & d & E & H). split; [lia|]. exists c', d.
        replace (i - k)%nat with (S (i - S k)) in E by lia. now split. }
    destruct (toDate c) as [d|] eqn:Ed.
    + destruct (Z.geb_spec d (start r)) as [Hs|Hs];
        destruct (Z.leb_spec d (end_ r)) as [He|He]; cbn [andb In];
        rewrite ?Hrest.
      * split.
        -- intros [<-|(Hk & H)]; [|split; [lia|exact H]].
           split; [lia|]. exists c, d. rewrite Nat.sub_diag. cbn.
           repeat split; try assumption; lia.
        -- intros (Hk & c' & d' & E & H).
           destruct (Nat.eq_dec i k) as [->|Hne]; [now left|].
           right. split; [lia|]. now exists c', d'.
      * split; [intros (Hk & H); split; [lia|exact H]|].
        intros (Hk & c' & d' & E & Ed' & H).
        destruct (Nat.eq_dec i k) as [->|Hne].
        -- rewrite Nat.sub_diag in E. cbn in E.
           assert (c' = c) by congruence. subst c'.
           assert (d' = d) by congruence. subst d'. lia.
        -- split; [lia|]. now exists c', d'.
      * split; [intros (Hk & H); split; [lia|exact H]|].
        intros (Hk & c' & d' & E & Ed' & H).
        destruct (Nat.eq_dec i k) as [->|Hne].
        -- rewrite Nat.sub_diag in E. cbn in E.
           assert (c' = c) by congruence. subst c'.
           assert (d' = d) by congruence. subst d'. lia.
        -- split; [lia|]. now exists c', d'.
      * split; [intros (Hk & H); split; [lia|exact H]|].
        intros (Hk & c' & d' & E & Ed' & H).
        destruct (Nat.eq_dec i k) as [->|Hne].
        -- rewrite Nat.sub_diag in E. cbn in E.
           assert (c' = c) by congruence. subst c'.
           assert (d' = d) by congruence. subst d'. lia.
        -- split; [lia|]. now exists c', d'.
    + rewrite Hrest.
      split; [intros (Hk & H); split; [lia|exact H]|].
      intros (Hk & c' & d' & E & Ed' & H).
      destruct (Nat.eq_dec i k) as [->|Hne].
      * rewrite Nat.sub_diag in E. cbn in E. congruence.
      * split; [lia|]. now exists c', d'.
Qed.

Lemma filterRows_sorted (cells : list Cell) (r : DateRange) (k : nat) :
  StronglySorted lt (filterRows toDate k cells r)
  /\ (List.length (filterRows toDate k cells r) <= List.length cells)%nat.
Proof.
  revert k. induction cells as [|c cells IH]; intros k; cbn [filterRows].
  - split; [constructor|cbn; lia].
  - destruct (IH (S k)) as [Hs Hl].
    assert (Hcons : StronglySorted lt (k :: filterRows toDate (S k) cells r)).
    { constructor; [exact Hs|]. apply Forall_forall. intros i Hi.
      apply filterRows_spec in Hi. lia. }
    destruct (toDate c) as [d|]; [|split; [exact Hs|cbn; lia]].
    destruct ((d >=? start r) && (d <=? end_ r));
      split; try assumption; cbn [List.length]; lia.
Qed.

Lemma In_filteredData (cells : list Cell) (r : DateRange) (i : nat) :
  In i (filteredData toDate (Some cells) r)
  <-> exists c d, nth_error cells i = Some c /\ toDate c = Some d
                  /\ start r <= d /\ d <= end_ r.
Proof.
  unfold filteredData. rewrite filterRows_spec, Nat.sub_0_r.
  split.
  - intros (_ & c & d & E & Ed & H). exists c, d. repeat split; tauto.
  - intros (c & d & E & Ed & H). split; [lia|]. exists c, d.
    repeat split; tauto.
Qed.

(** X4. The filtered rows are exactly the rows whose cell is a valid date
    inside the selected range, ends included. *)
Theorem filteredData_rows (cells : list Cell) (r : DateRange) (i : nat) :
  In i (filteredData toDate (Some cells) r)
  <-> exists c d, nth_error cells i = Some c /\ toDate c = Some d
                  /\ start r <= d /\ d <= end_ r.
Proof. exact (In_filteredData cells r i). Qed.

(** X5. Row numbers come out in increasing order, without repetition, and there
    are never more of them than rows in the column; without a column there
    is none. *)
Theorem filteredData_increasing (col : option (list Cell)) (r : DateRange) :
  StronglySorted lt (filteredData toDate col r)
  /\ NoDup (filteredData toDate col r)
  /\ (List.length (filteredData toDate col r) <= totalCount col)%nat.
Proof.
  assert (H : StronglySorted lt (filteredData toDate col r)
              /\ (List.length (filteredData toDate col r)
                  <= totalCount col)%nat).
  { destruct col as [cells|]; cbn [filteredData totalCount].
    - apply filterRows_sorted.
    - split; [constructor|cbn; lia]. }
  destruct H as [Hs Hl]. split; [exact Hs|]. split; [|exact Hl].
  clear Hl. induction Hs as [|a l Hs IH Ha]; constructor; [|exact IH].
  intros Hin. rewrite Forall_forall in Ha. specialize (Ha a Hin). lia.
Qed.

(** X6. When the memo returns bounds, the plugin mounts with the selection
    equal to these bounds; the effect that re-clamps it leaves it as it is,
    and the filter then keeps every row that holds a valid date. *)
Theorem filteredData_full_range (cells : list Cell) (i : nat)
  (minDate maxDate : Date) :
  minMaxDates toDate argumentLimit (Some cells) = Some (minDate, maxDate) ->
  let r0 := {| start := minDate; end_ := maxDate |} in
  reclampRange r0 minDate maxDate = r0
  /\ (In i (filteredData toDate (Some cells) r0)
      <-> exists c d, nth_error cells i = Some c /\ toDate c = Some d).
Proof.
  intros E. cbv zeta. pose proof (minMaxDates_le (Some cells) _ _ E) as Hb.
  split.
  - apply reclampRange_fixed; cbn [start end_]; lia.
  - rewrite In_filteredData. cbn [start end_]. split.
    + intros (c & d & Ec & Ed & _). now exists c, d.
    + intros (c & d & Ec & Ed). exists c, d.
      split; [exact Ec|]. split; [exact Ed|].
      apply nth_error_In in Ec.
      destruct (minMaxDates_bounds cells _ _ E c d Ec Ed). now split.
Qed.

(** X7. Widening the selection never removes a row. *)
Theorem filteredData_monotone (col : option (list Cell)) (r r' : DateRange) :
  start r' <= start r -> end_ r <= end_ r' ->
  incl (filteredData toDate col r) (filteredData toDate col r').
Proof.
  intros Hs He i. destruct col as [cells|]; [|intros []].
  rewrite !In_filteredData. intros (c & d & E & Ed & H1 & H2).
  exists c, d. repeat split; try assumption; lia.
Qed.

End PluginFacts.

(** ** The labels of [formatShort] *)

Lemma toString_inj (a b : Z) : toString a = toString b -> a = b.
Proof.
  unfold toString. intros E.
  assert (H : forall z, NilZero.int_of_string
                          (NilZero.string_of_int (Z.to_int z))
                        = Some (Z.to_int z)).
  { intros z. apply NilZero.isi; destruct z; cbn; try discriminate;
      intros [= H]; now apply DecimalPos.Unsigned.to_uint_nonnil in H. }
  pose proof (H a) as Ha. rewrite E, H in Ha.
  injection Ha as Ha. symmetry. now apply DecimalZ.to_int_inj.
Qed.

Lemma String_length_append (s t : string) :
  String.length (s ++ t) = (String.length s + String.length t)%nat.
Proof. induction s as [|a s IH]; cbn; [reflexivity|now rewrite IH]. Qed.

Lemma String_append_assoc (s t u : string) :
  ((s ++ t) ++ u = s ++ t ++ u)%string.
Proof. induction s as [|a s IH]; cbn; [reflexivity|now rewrite IH]. Qed.

(** Two strings that end in suffixes of the same length are equal only if
    their prefixes and their suffixes are. *)
Lemma append_inj_suffix (s1 s2 t1 t2 : string) :
  String.length t1 = String.length t2 ->
  (s1 ++ t1 = s2 ++ t2)%string -> s1 = s2 /\ t1 = t2.
Proof.
  intros Hl. revert s2.
  induction s1 as [|a s1 IH]; intros [|b s2] E; cbn in E.
  - now split.
  - exfalso. apply (f_equal String.length) in E. cbn in E.
    rewrite String_length_append in E. lia.
  - exfalso. apply (f_equal String.length) in E. cbn in E.
    rewrite String_length_append in E. lia.
  - injection E as -> E. destruct (IH s2 E) as [-> ->]. now split.
Qed.

(** Two-digit fields: every number from 0 to 99 is padded to exactly two
    characters, and different numbers to different fields. *)
Lemma twoDigits_table :
  forallb (fun a =>
    Nat.eqb (String.length (padStart2 (toString (Z.of_nat a)))) 2
    && forallb (fun b =>
         implb (String.eqb (padStart2 (toString (Z.of_nat a)))
                  (padStart2 (toString (Z.of_nat b))))
           (Nat.eqb a b))
         (seq 0 100))
    (seq 0 100) = true.
Proof. vm_compute. reflexivity. Qed.

Lemma padStart2_length (k : Z) :
  0 <= k <= 99 -> String.length (padStart2 (toString k)) = 2%nat.
Proof.
  intros Hk. pose proof twoDigits_table as T. rewrite forallb_forall in T.
  specialize (T (Z.to_nat k)). rewrite in_seq in T.
  destruct (andb_prop _ _ (T ltac:(lia))) as [H _].
  apply Nat.eqb_eq in H. now rewrite Z2Nat.id in H by lia.
Qed.

Lemma padStart2_inj (k k' : Z) :
  0 <= k <= 99 -> 0 <= k' <= 99 ->
  padStart2 (toString k) = padStart2 (toString k') -> k = k'.
Proof.
  intros Hk Hk' E. pose proof twoDigits_table as T.
  rewrite forallb_forall in T. specialize (T (Z.to_nat k)).
  rewrite in_seq in T. destruct (andb_prop _ _ (T ltac:(lia))) as [_ H].
  rewrite forallb_forall in H. specialize (H (Z.to_nat k')).
  rewrite in_seq in H. specialize (H ltac:(lia)).
  rewrite !Z2Nat.id in H by lia.
  rewrite E, String.eqb_refl in H. cbn [implb] in H.
  apply Nat.eqb_eq in H. lia.
Qed.

Lemma month_length_le_31 (m l : Z) :
  0 <= m <= 11 -> 0 <= l <= 1 ->
  DaysBeforeMonth (m + 1) l <= DaysBeforeMonth m l + 31.
Proof.
  intros Hm Hl. month_cases m.
  repeat match goal with H : _ \/ _ |- _ => destruct H end; subst m;
    dbm; lia.
Qed.

Lemma getDate_le_31 (d : Date) : getDate d <= 31.
Proof.
  pose proof (MakeDay_getters d) as E.
  pose proof (first_of_month_le d) as [_ Hhi].
  pose proof (getMonth_range d) as Hm.
  rewrite (MakeDay_date _ _ 1 (getDate d)) in E.
  rewrite (MakeDay_month _ (getMonth d)) in E by lia.
  rewrite (MakeDay_month _ (getMonth d + 1)) in Hhi by lia.
  pose proof (LeapOfYear_range (getFullYear d)).
  pose proof (month_length_le_31 (getMonth d) (LeapOfYear (getFullYear d))).
  lia.
Qed.

(** The fields a label is made of. *)
Lemma formatShort_fields (d d' : Date) (g : Granularity) :
  formatShort d g = formatShort d' g <->
  getFullYear d = getFullYear d'
  /\ match g with
     | day => getMonth d = getMonth d' /\ getDate d = getDate d'
     | month => getMonth d = getMonth d'
     | quarter => getMonth d / 3 = getMonth d' / 3
     | year => True
     end.
Proof.
  pose proof (getMonth_range d) as Hm. pose proof (getMonth_range d') as Hm'.
  pose proof (getDate_range d) as Hd. pose proof (getDate_range d') as Hd'.
  pose proof (getDate_le_31 d) as Hu. pose proof (getDate_le_31 d') as Hu'.
  split.
  - unfold formatShort. destruct g; intros E.
    + apply append_inj_suffix in E.
      2:{ cbn [String.append String.length].
          rewrite !String_length_append. cbn [String.append String.length].
          rewrite !padStart2_length by lia. reflexivity. }
      destruct E as [Ey E]. cbn [String.append] in E. injection E as E.
      apply append_inj_suffix in E.
      2:{ cbn [String.append String.length].
          rewrite !padStart2_length by lia. reflexivity. }
      destruct E as [Em E]. cbn [String.append] in E. injection E as E.
      apply toString_inj in Ey. apply padStart2_inj in Em, E; lia.
    + apply append_inj_suffix in E.
      2:{ cbn [String.append String.length].
          rewrite !padStart2_length by lia. reflexivity. }
      destruct E as [Ey E]. cbn [String.append] in E. injection E as E.
      apply toString_inj in Ey. apply padStart2_inj in E; lia.
    + assert (Hq : forall m, 0 <= m <= 11 ->
                String.length (toString (m / 3 + 1)) = 1%nat).
      { intros m H.
        assert (C : m / 3 + 1 = 1 \/ m / 3 + 1 = 2 \/ m / 3 + 1 = 3
                    \/ m / 3 + 1 = 4) by zdiv.
        destruct C as [->|[->|[->| ->]]]; reflexivity. }
      apply append_inj_suffix in E.
      2:{ cbn [String.append String.length]. now rewrite !Hq. }
      destruct E as [Ey E]. cbn [String.append] in E. injection E as E.
      apply toString_inj in Ey, E. split; lia.
    + apply toString_inj in E. now split.
  - unfold formatShort. destruct g.
    + intros (-> & -> & ->). reflexivity.
    + intros (-> & ->). reflexivity.
    + intros (-> & ->). reflexivity.
    + intros (-> & _). reflexivity.
Qed.

Lemma MakeDay_first_inj (y y' m m' : Z) :
  0 <= m <= 11 -> 0 <= m' <= 11 ->
  MakeDay y m 1 = MakeDay y' m' 1 -> y = y' /\ m = m'.
Proof.
  intros Hm Hm' E.
  destruct (first_of_month_day y m Hm) as [Ey Em].
  destruct (first_of_month_day y' m' Hm') as [Ey' Em'].
  rewrite E in Ey, Em. split; [congruence|].
  assert (y = y') by congruence. subst y'. congruence.
Qed.

(** Equal labels are equal calendar periods. *)
Lemma formatShort_period (d d' : Date) (g : Granularity) :
  formatShort d g = formatShort d' g <->
  periodStart g (localDayOf d) = periodStart g (localDayOf d').
Proof.
  rewrite formatShort_fields. unfold periodStart.
  rewrite <- !getFullYear_day, <- !getMonth_day.
  pose proof (getMonth_range d) as Hm. pose proof (getMonth_range d') as Hm'.
  pose proof (quarter_month _ Hm). pose proof (quarter_month _ Hm').
  destruct g.
  - split.
    + intros (Ey & Em & Ed). rewrite <- (MakeDay_getters d),
        <- (MakeDay_getters d'). congruence.
    + intros E.
      assert (Ey : getFullYear d = getFullYear d')
        by (rewrite !getFullYear_day; now rewrite E).
      assert (Em : getMonth d = getMonth d')
        by (rewrite !getMonth_day, Ey, E; reflexivity).
      pose proof (MakeDay_getters d) as G.
      pose proof (MakeDay_getters d') as G'.
      rewrite (MakeDay_date _ _ 1 (getDate d)) in G.
      rewrite (MakeDay_date _ _ 1 (getDate d')) in G'.
      rewrite Ey, Em in G. repeat split; [exact Ey|exact Em|lia].
  - split.
    + intros (-> & ->). reflexivity.
    + intros E. now apply MakeDay_first_inj in E.
  - split.
    + intros (-> & ->). reflexivity.
    + intros E. apply MakeDay_first_inj in E; lia.
  - split.
    + intros (-> & _). reflexivity.
    + intros E. apply MakeDay_first_inj in E; [tauto|lia|lia].
Qed.

(** X11. Two dates in years the constructor takes literally get the same label
    exactly when they have the same floor: the label names the period. *)
Theorem formatShort_names_period (d d' : Date) (g : Granularity) :
  literal_year (getFullYear d) -> literal_year (getFullYear d') ->
  (formatShort d g = formatShort d' g
   <-> floorToGranularity d g = floorToGranularity d' g).
Proof.
  intros Hy Hy'. rewrite formatShort_period.
  rewrite !floorToGranularity_periodStart by assumption.
  unfold UTC, MakeDate, msPerDay. split; [now intros ->|lia].
Qed.

(** X12. A day label has the shape of an ISO date: the year as it prints, a
    dash, two digits of month, a dash, two digits of day; the month label is
    its first part. *)
Theorem formatShort_day_shape (d : Date) :
  exists mm dd : string,
    String.length mm = 2%nat /\ String.length dd = 2%nat
    /\ formatShort d month = (toString (getFullYear d) ++ "-" ++ mm)%string
    /\ formatShort d day = (formatShort d month ++ "-" ++ dd)%string
    /\ String.length (formatShort d day)
       = (String.length (toString (getFullYear d)) + 6)%nat.
Proof.
  pose proof (getMonth_range d) as Hm. pose proof (getDate_range d) as Hd.
  pose proof (getDate_le_31 d) as Hu.
  exists (padStart2 (toString (getMonth d + 1))),
         (padStart2 (toString (getDate d))).
  rewrite !padStart2_length by lia. unfold formatShort.
  repeat split.
  - now rewrite String_append_assoc.
  - repeat (rewrite String_length_append; cbn [String.append String.length]).
    rewrite !padStart2_length by lia. lia.
Qed.

(** ** The stripes *)

Lemma MakeDay_month_carry (y m dt : Z) :
  MakeDay y (m + 12) dt = MakeDay (y + 1) m dt.
Proof.
  unfold MakeDay.
  replace ((m + 12) / 12) with (m / 12 + 1) by zdiv.
  replace ((m + 12) mod 12) with (m mod 12) by zdiv.
  now replace (y + (m / 12 + 1)) with (y + 1 + m / 12) by lia.
Qed.

(** Month monotonicity of [MakeDay] past December, as far as the loop of the
    stripes can go (month + 3). *)
Lemma MakeDay_month_mono_carry (y m1 m2 dt : Z) :
  0 <= m1 -> m1 <= m2 -> m2 <= 23 -> MakeDay y m1 dt <= MakeDay y m2 dt.
Proof.
  intros H1 H12 H2.
  destruct (Z.le_gt_cases m2 12) as [Hle|Hgt];
    [now apply MakeDay_month_mono|].
  replace m2 with (m2 - 12 + 12) by lia. rewrite MakeDay_month_carry.
  destruct (Z.le_gt_cases m1 12) as [Hle1|Hgt1].
  - pose proof (MakeDay_month_mono y m1 12 dt).
    pose proof (MakeDay_month_mono (y + 1) 0 (m2 - 12) dt).
    pose proof (MakeDay_next_year y) as E.
    rewrite (MakeDay_date _ _ 1 dt), (MakeDay_date y 12 1 dt) in *.
    rewrite (MakeDay_date (y + 1) 0 1 dt) in *. lia.
  - replace m1 with (m1 - 12 + 12) by lia. rewrite MakeDay_month_carry.
    apply MakeDay_month_mono; lia.
Qed.

(** The next stripe is a local midnight at least one day after the current
    one. *)
Lemma nextStripe_advances (c : Date) (g : Granularity) :
  nextStripe c g = UTC (MakeDate (localDayOf (nextStripe c g)) 0)
  /\ localDayOf c + 1 <= localDayOf (nextStripe c g).
Proof.
  pose proof (getMonth_range c) as Hm.
  pose proof (first_of_month_le c) as [_ Hhi].
  pose proof (MakeFullYear_ge (getFullYear c)) as Hge.
  split.
  - destruct g; unfold nextStripe; now rewrite localDayOf_newDate.
  - destruct g; unfold nextStripe; rewrite localDayOf_newDate.
    + pose proof (MakeDay_year_mono (getFullYear c)
                    (MakeFullYear (getFullYear c)) (getMonth c)
                    (getDate c + 1)) as H.
      rewrite (MakeDay_date _ _ (getDate c) (getDate c + 1)), MakeDay_getters
        in H. lia.
    + pose proof (MakeDay_year_mono (getFullYear c)
                    (MakeFullYear (getFullYear c)) (getMonth c + 1) 1). lia.
    + assert (MakeDay (getFullYear c) (getMonth c + 3) 1
              <= MakeDay (MakeFullYear (getFullYear c)) (getMonth c + 3) 1).
      { destruct (Z.le_gt_cases (getMonth c + 3) 12).
        - apply MakeDay_year_mono; lia.
        - replace (getMonth c + 3) with (getMonth c + 3 - 12 + 12) by lia.
          rewrite !MakeDay_month_carry. apply MakeDay_year_mono; lia. }
      pose proof (MakeDay_month_mono_carry (getFullYear c) (getMonth c + 1)
                    (getMonth c + 3) 1). lia.
    + pose proof (MakeFullYear_ge (getFullYear c + 1)).
      pose proof (MakeDay_year_mono (getFullYear c + 1)
                    (MakeFullYear (getFullYear c + 1)) 0 1).
      pose proof (MakeDay_month_mono (getFullYear c) (getMonth c + 1) 12 1).
      pose proof (MakeDay_next_year (getFullYear c)). lia.
Qed.

Lemma nextStripe_gt (c : Date) (g : Granularity) : c < nextStripe c g.
Proof.
  destruct (nextStripe_advances c g) as [E H]. rewrite E.
  apply midnight_gt. lia.
Qed.

Lemma localDayOf_mono (d1 d2 : Date) :
  d1 <= d2 -> localDayOf d1 <= localDayOf d2.
Proof. intros H. apply Day_mono. unfold LocalTime. lia. Qed.

(** Once the bound on the iterations covers the days left up to [max], more
    iterations add nothing: the loop has stopped. *)
Lemma stripesLoop_enough (g : Granularity) (max : Date) (fuel : nat) :
  forall (c : Date) (extra : nat),
    localDayOf max - localDayOf c + 1 <= Z.of_nat fuel ->
    stripesLoop (fuel + extra) c max g = stripesLoop fuel c max g.
Proof.
  induction fuel as [|fuel IH]; intros c extra Hf.
  - destruct extra as [|extra]; [reflexivity|]. cbn [Nat.add stripesLoop].
    destruct (Z.leb_spec c max) as [Hle|]; [|reflexivity].
    apply localDayOf_mono in Hle. lia.
  - cbn [Nat.add stripesLoop].
    destruct (Z.leb_spec c max) as [Hle|]; [|reflexivity].
    f_equal. apply IH.
    destruct (nextStripe_advances c g) as [_ H]. lia.
Qed.

Lemma stripesLoop_sorted (g : Granularity) (max : Date) (fuel : nat) :
  forall c : Date,
    StronglySorted Z.lt (stripesLoop fuel c max g)
    /\ Forall (fun d => c <= d <= max) (stripesLoop fuel c max g).
Proof.
  induction fuel as [|fuel IH]; intros c; cbn [stripesLoop].
  - split; constructor.
  - destruct (Z.leb_spec c max) as [Hle|]; [|split; constructor].
    destruct (IH (nextStripe c g)) as [Hs Hf].
    pose proof (nextStripe_gt c g) as Hgt.
    split.
    + constructor; [exact Hs|].
      eapply Forall_impl; [|exact Hf]. cbn. intros d Hd. lia.
    + constructor; [lia|].
      eapply Forall_impl; [|exact Hf]. cbn. intros d Hd. lia.
Qed.

(** *** Stripes and boundaries *)

(** In a literal year every date of a period has the floor of the period. *)
Lemma floor_in_period (d t : Date) (g : Granularity) :
  literal_year (getFullYear d) ->
  periodStart g (localDayOf d) <= localDayOf t
  < periodNext g (localDayOf d) ->
  floorToGranularity t g = floorToGranularity d g.
Proof.
  intros Hl Ht.
  destruct (period_same g (localDayOf d) (localDayOf t) Ht) as (Es & _ & Ey).
  rewrite (floorToGranularity_periodStart d g Hl).
  rewrite floorToGranularity_periodStart; [now rewrite Es|].
  destruct (granularity_eq_day g) as [->|Hg].
  - unfold periodStart, periodNext in Ht.
    assert (E : localDayOf t = localDayOf d) by lia.
    now rewrite getFullYear_day, E.
  - now rewrite getFullYear_day, (Ey Hg).
Qed.

(** A boundary is the local midnight that starts its period. *)
Lemma on_boundary_periodStart (c : Date) (g : Granularity) :
  literal_year (getFullYear c) -> on_boundary c g ->
  c = UTC (MakeDate (localDayOf c) 0)
  /\ periodStart g (localDayOf c) = localDayOf c.
Proof.
  intros Hl Hb. unfold on_boundary in Hb.
  rewrite (floorToGranularity_periodStart c g Hl) in Hb.
  assert (E : localDayOf c = periodStart g (localDayOf c)).
  { rewrite <- Hb at 1. apply localDayOf_midnight. }
  split; [|now symmetry]. rewrite <- E in Hb. now symmetry.
Qed.

Lemma periodStart_getters (d : Date) (g : Granularity) :
  periodStart g (localDayOf d)
  = match g with
    | day => localDayOf d
    | month => MakeDay (getFullYear d) (getMonth d) 1
    | quarter => MakeDay (getFullYear d) (getMonth d / 3 * 3) 1
    | year => MakeDay (getFullYear d) 0 1
    end.
Proof. destruct g; reflexivity. Qed.

(** From a boundary, in a year outside -1..99, the next stripe is the start
    of the next period. *)
Lemma nextStripe_periodNext (c : Date) (g : Granularity) :
  getFullYear c < -1 \/ 99 < getFullYear c -> on_boundary c g ->
  nextStripe c g = UTC (MakeDate (periodNext g (localDayOf c)) 0).
Proof.
  intros Hy Hb.
  assert (Hl : literal_year (getFullYear c)) by (unfold literal_year; lia).
  assert (Hl1 : literal_year (getFullYear c + 1))
    by (unfold literal_year; lia).
  pose proof (MakeFullYear_literal _ Hl) as Ey.
  pose proof (MakeFullYear_literal _ Hl1) as Ey1.
  pose proof (getMonth_range c) as Hm.
  destruct (on_boundary_periodStart c g Hl Hb) as [_ Ep].
  unfold periodNext. rewrite <- getFullYear_day, <- getMonth_day.
  destruct g; unfold nextStripe, newDate; rewrite ?Ey, ?Ey1.
  - now rewrite (MakeDay_date _ _ (getDate c) (getDate c + 1)),
      MakeDay_getters, Z.add_simpl_l.
  - reflexivity.
  - pose proof (quarter_month _ Hm) as Hq.
    rewrite (periodStart_getters c quarter) in Ep. cbv beta iota in Ep.
    destruct (first_of_month_day (getFullYear c) (getMonth c / 3 * 3))
      as [_ Em]; [lia|].
    pose proof (getMonth_day c) as G.
    assert (E : getMonth c = getMonth c / 3 * 3) by congruence.
    now rewrite <- E.
  - now rewrite MakeDay_next_year.
Qed.

(** With enough iterations, from a boundary [c] and with years outside
    -1..99 up to [max], the loop lists exactly the boundaries from [c] to
    [max]. *)
Lemma stripesLoop_boundaries (g : Granularity) (max : Date) (fuel : nat) :
  forall c : Date,
    localDayOf max - localDayOf c + 1 <= Z.of_nat fuel ->
    getFullYear max < -1 \/ 99 < getFullYear c ->
    on_boundary c g ->
    forall d : Date,
      In d (stripesLoop fuel c max g) <-> c <= d <= max /\ on_boundary d g.
Proof.
  induction fuel as [|fuel IH]; intros c Hf Hy Hb d; cbn [stripesLoop].
  - split; [intros []|]. intros [[H1 H2] _].
    assert (c <= max) by lia. apply localDayOf_mono in H. lia.
  - destruct (Z.leb_spec c max) as [Hle|Hgt];
      [|split; [intros []|lia]].
    pose proof (getFullYear_mono _ _ Hle) as Hyc.
    assert (Hyc' : getFullYear c < -1 \/ 99 < getFullYear c) by lia.
    assert (Hl : literal_year (getFullYear c)) by (unfold literal_year; lia).
    pose proof (nextStripe_periodNext c g Hyc' Hb) as En.
    destruct (nextStripe_advances c g) as [_ Hadv].
    pose proof (nextStripe_gt c g) as Hgt.
    destruct (on_boundary_periodStart c g Hl Hb) as [Ec Ep].
    assert (Hnb : on_boundary (nextStripe c g) g).
    { unfold on_boundary. rewrite En.
      pose proof (YearFromDay_periodNext g (localDayOf c)) as Hyn.
      rewrite <- getFullYear_day in Hyn.
      rewrite floorToGranularity_periodStart.
      - now rewrite localDayOf_midnight, periodStart_next.
      - rewrite getFullYear_day, localDayOf_midnight.
        unfold literal_year. lia. }
    pose proof (getFullYear_mono _ _ (Z.lt_le_incl _ _ Hgt)) as Hyn.
    specialize (IH (nextStripe c g) ltac:(lia) ltac:(lia) Hnb d).
    cbn [In]. rewrite IH. split.
    + intros [<-|[[H1 H2] H3]]; [split; [lia|exact Hb]|].
      split; [lia|exact H3].
    + intros [[H1 H2] H3].
      destruct (Z.lt_ge_cases d (nextStripe c g)) as [Hlt|Hge];
        [|right; split; [lia|exact H3]].
      left. rewrite En in Hlt. apply midnight_gt in Hlt.
      assert (Hd : periodStart g (localDayOf c) <= localDayOf d).
      { rewrite Ep. now apply localDayOf_mono. }
      pose proof (floor_in_period c d g Hl (conj Hd Hlt)) as E.
      unfold on_boundary in H3, Hb. congruence.
Qed.

(** X13. The loop of the stripes terminates: run for the iterations [stripes]
    allows, it has stopped, and any larger bound gives the same stripes. *)
Theorem stripes_terminate (min max : Date) (g : Granularity) (extra : nat) :
  let current := floorToGranularity min g in
  stripesLoop (stripesFuel current max + extra) current max g
  = stripes min max g.
Proof.
  intros current. unfold stripes. fold current.
  apply stripesLoop_enough. unfold stripesFuel. lia.
Qed.

(** X14. The stripes come in strictly increasing order (so their React keys are
    distinct), none lies before the floor of [min] or after [max], and when
    that floor is not after [max] the first stripe is the floor of [min]. *)
Theorem stripes_increasing (min max : Date) (g : Granularity) :
  StronglySorted Z.lt (stripes min max g)
  /\ NoDup (stripes min max g)
  /\ Forall (fun d => floorToGranularity min g <= d <= max) (stripes min max g)
  /\ (floorToGranularity min g <= max ->
      exists rest, stripes min max g = floorToGranularity min g :: rest)
  /\ (max < floorToGranularity min g -> stripes min max g = []).
Proof.
  unfold stripes.
  destruct (stripesLoop_sorted g max
              (stripesFuel (floorToGranularity min g) max)
              (floorToGranularity min g)) as [Hs Hf].
  split; [exact Hs|]. split; [|split; [exact Hf|split]].
  - clear Hf. induction Hs as [|a l Hs IH Ha]; constructor; [|exact IH].
    intros Hin. rewrite Forall_forall in Ha. specialize (Ha a Hin). lia.
  - intros Hle. pose proof (localDayOf_mono _ _ Hle) as Hd.
    unfold stripesFuel.
    destruct (Z.to_nat (localDayOf max
                        - localDayOf (floorToGranularity min g) + 1))
      as [|n] eqn:E; [lia|].
    cbn [stripesLoop]. destruct (Z.leb_spec (floorToGranularity min g) max);
      [eauto|lia].
  - intros Hgt.
    destruct (stripesFuel (floorToGranularity min g) max) as [|n];
      [reflexivity|].
    cbn [stripesLoop]. destruct (Z.leb_spec (floorToGranularity min g) max);
      [lia|reflexivity].
Qed.

(** X15. For bounds [min <= max] with the years between them outside -1..99,
    there is a stripe at every boundary of the granularity between the floor
    of [min] and [max], and nowhere else. *)
Theorem stripes_at_boundaries (min max : Date) (g : Granularity) (d : Date) :
  min <= max ->
  getFullYear max < -1 \/ 99 < getFullYear min ->
  (In d (stripes min max g)
   <-> floorToGranularity min g <= d <= max /\ on_boundary d g).
Proof.
  intros Hmm Hy. unfold stripes.
  pose proof (getFullYear_mono _ _ Hmm) as Hym.
  assert (Hl : literal_year (getFullYear min))
    by (unfold literal_year; lia).
  apply stripesLoop_boundaries.
  - unfold stripesFuel. lia.
  - rewrite (floorToGranularity_periodStart min g Hl).
    rewrite (getFullYear_day (UTC _)), localDayOf_midnight,
      YearFromDay_periodStart, <- getFullYear_day. lia.
  - now apply floorToGranularity_on_boundary.
Qed.

(** ** More on floor and ceil *)

Lemma periodStart_mono (g : Granularity) (n1 n2 : Z) :
  n1 <= n2 -> periodStart g n1 <= periodStart g n2.
Proof.
  intros H. pose proof (period_contains g n1) as [L1 _].
  pose proof (period_contains g n2) as [L2 U2].
  destruct (Z.le_gt_cases (periodStart g n2) n1) as [Hin|Hout]; [|lia].
  destruct (period_same g n2 n1) as [E _]; lia.
Qed.

Lemma floorToGranularity_mono (d1 d2 : Date) (g : Granularity) :
  literal_year (getFullYear d1) -> literal_year (getFullYear d2) ->
  d1 <= d2 -> floorToGranularity d1 g <= floorToGranularity d2 g.
Proof.
  intros H1 H2 H. rewrite !floorToGranularity_periodStart by assumption.
  pose proof (periodStart_mono g _ _ (localDayOf_mono _ _ H)).
  unfold UTC, MakeDate, msPerDay. lia.
Qed.

(** X16. Flooring twice is flooring once, in a year the constructor takes
    literally. *)
Theorem floor_idempotent (d : Date) (g : Granularity) :
  literal_year (getFullYear d) ->
  floorToGranularity (floorToGranularity d g) g = floorToGranularity d g.
Proof. intros Hy. now apply floorToGranularity_on_boundary. Qed.

(** X17. In years the constructor takes literally the floor is monotone: a later
    date never has an earlier floor. *)
Theorem floor_monotone (d1 d2 : Date) (g : Granularity) :
  literal_year (getFullYear d1) -> literal_year (getFullYear d2) ->
  d1 <= d2 -> floorToGranularity d1 g <= floorToGranularity d2 g.
Proof. exact (floorToGranularity_mono d1 d2 g). Qed.

(** X18. With years outside -1..99, the floor of [d] is the latest boundary at or
    before [d], and the ceil of [d] is the earliest boundary at or after
    [d]. *)
Theorem floor_ceil_nearest_boundaries (d b : Date) (g : Granularity) :
  getFullYear d < -1 \/ 99 < getFullYear d ->
  getFullYear b < -1 \/ 99 < getFullYear b ->
  on_boundary b g ->
  (b <= d -> b <= floorToGranularity d g)
  /\ (d <= b -> ceilToGranularity d g <= b).
Proof.
  intros Hd Hb Hon.
  assert (Ld : literal_year (getFullYear d)) by (unfold literal_year; lia).
  assert (Lb : literal_year (getFullYear b)) by (unfold literal_year; lia).
  split; intros Hle.
  - rewrite <- Hon. now apply floorToGranularity_mono.
  - destruct (Z.eq_dec (floorToGranularity d g) d) as [E|Hne].
    + now rewrite (ceilToGranularity_fixed d g E).
    + destruct (ceilToGranularity_next_period d g Hd Hne) as (_ & _ & Hbetween).
      destruct (Z.le_gt_cases (ceilToGranularity d g) b) as [|Hlt];
        [assumption|].
      pose proof (floorToGranularity_le d g Ld).
      specialize (Hbetween b ltac:(lia)).
      unfold on_boundary in Hon. rewrite Hon in Hbetween. lia.
Qed.

Lemma periodStart_nested (n : Z) :
  periodStart year n <= periodStart quarter n
  /\ periodStart quarter n <= periodStart month n
  /\ periodStart month n <= n.
Proof.
  pose proof (day_in_month n) as [Hm [Hlo _]]. cbv zeta in Hm, Hlo.
  unfold periodStart.
  set (y := YearFromDay n) in *.
  set (m := MonthOfYearDay (n - DayFromYear y) (LeapOfYear y)) in *.
  pose proof (quarter_month m Hm).
  pose proof (MakeDay_month_mono y 0 (m / 3 * 3) 1).
  pose proof (MakeDay_month_mono y (m / 3 * 3) m 1).
  lia.
Qed.

(** X19. The four [startOf...] functions are the four cases of
    [floorToGranularity], and the periods nest: in a year the constructor
    takes literally, the start of the year is at or before the start of the
    quarter, then the start of the month, then the start of the day, then the
    date. *)
Theorem startOf_nested (d : Date) :
  literal_year (getFullYear d) ->
  startOfYear d = floorToGranularity d year
  /\ startOfQuarter d = floorToGranularity d quarter
  /\ startOfMonth d = floorToGranularity d month
  /\ startOfDay d = floorToGranularity d day
  /\ startOfYear d <= startOfQuarter d /\ startOfQuarter d <= startOfMonth d
  /\ startOfMonth d <= startOfDay d /\ startOfDay d <= d.
Proof.
  intros Hy.
  assert (E1 : startOfYear d = floorToGranularity d year)
    by (unfold startOfYear, floorToGranularity; reflexivity).
  assert (E2 : startOfQuarter d = floorToGranularity d quarter)
    by (unfold startOfQuarter, floorToGranularity; reflexivity).
  assert (E3 : startOfMonth d = floorToGranularity d month)
    by (unfold startOfMonth, floorToGranularity; reflexivity).
  assert (E4 : startOfDay d = floorToGranularity d day)
    by (unfold startOfDay, floorToGranularity; reflexivity).
  do 4 (split; [assumption|]). rewrite E1, E2, E3, E4.
  pose proof (floorToGranularity_le d day Hy) as Hday.
  destruct (periodStart_nested (localDayOf d)) as (H1 & H2 & H3).
  rewrite !floorToGranularity_periodStart by assumption.
  rewrite floorToGranularity_periodStart in Hday by assumption.
  change (periodStart day (localDayOf d)) with (localDayOf d).
  rewrite !UTC_le. unfold MakeDate, msPerDay.
  repeat split; try lia. exact Hday.
Qed.

(** ** What the host stores is what the component shows *)

Lemma clampDate_below (d minD maxD : Date) :
  d <= minD -> minD <= maxD -> clampDate d minD maxD = minD.
Proof.
  intros Hd H. unfold clampDate.
  destruct (Z.ltb_spec d minD); [reflexivity|].
  destruct (Z.gtb_spec d maxD); lia.
Qed.

(** Snapping a snapped start again changes nothing. *)
Lemma resnap_start (min max s : Date) (g : Granularity) :
  min <= max -> literal_years min max -> min <= s <= max ->
  let a := clampDate (floorToGranularity s g) min max in
  clampDate (floorToGranularity a g) min max = a.
Proof.
  intros Hmm Hy Hs a.
  assert (Ls : literal_year (getFullYear s))
    by (apply (literal_years_between min max); assumption).
  assert (Lm : literal_year (getFullYear min))
    by (apply (literal_years_between min max); [assumption|lia]).
  pose proof (floorToGranularity_le s g Ls) as Hf.
  destruct (Z.lt_ge_cases (floorToGranularity s g) min) as [Hlt|Hge].
  - assert (Ea : a = min) by (subst a; apply clampDate_below; lia).
    rewrite Ea. apply clampDate_below; [|exact Hmm].
    now apply floorToGranularity_le.
  - assert (Ea : a = floorToGranularity s g)
      by (subst a; apply clampDate_id; lia).
    rewrite Ea, (floorToGranularity_on_boundary s g Ls).
    apply clampDate_id. lia.
Qed.

(** Snapping a snapped end again changes nothing. *)
Lemma resnap_end (min max e : Date) (g : Granularity) :
  min <= max -> getFullYear max < -1 \/ 99 < getFullYear min ->
  min <= e <= max ->
  let b := clampDate (ceilToGranularity e g) min max in
  clampDate (ceilToGranularity b g) min max = b.
Proof.
  intros Hmm Hy [He1 He2] b.
  pose proof (getFullYear_mono _ _ He1). pose proof (getFullYear_mono _ _ He2).
  pose proof (le_ceilToGranularity e g) as Hc.
  destruct (Z.lt_ge_cases max (ceilToGranularity e g)) as [Hlt|Hge].
  - assert (Eb : b = max) by (subst b; apply clampDate_above; lia).
    rewrite Eb. apply clampDate_above; [exact Hmm|].
    apply le_ceilToGranularity.
  - assert (Eb : b = ceilToGranularity e g)
      by (subst b; apply clampDate_id; lia).
    rewrite Eb.
    assert (Hb : on_boundary (ceilToGranularity e g) g).
    { destruct (Z.eq_dec (floorToGranularity e g) e) as [E|Hne].
      - rewrite (ceilToGranularity_fixed e g E). exact E.
      - apply ceilToGranularity_next_period; [lia|exact Hne]. }
    rewrite (ceilToGranularity_fixed _ g Hb). apply clampDate_id. lia.
Qed.

Lemma literal_years_of_plain (min max : Date) :
  getFullYear max < -1 \/ 99 < getFullYear min -> literal_years min max.
Proof. unfold literal_years. lia. Qed.

(** A range that is ordered, inside the bounds and, with snap on, stable
    under a second snap, is its own normalisation. *)
Lemma normalizedRange_fixed (min max : Date) (r : DateRange) (snap : bool)
  (g : Granularity) :
  in_bounds min max r ->
  (snap = true ->
   clampDate (floorToGranularity (start r) g) min max = start r
   /\ clampDate (ceilToGranularity (end_ r) g) min max = end_ r) ->
  normalizedRange min max (Some r) snap g = r.
Proof.
  intros (H1 & H2 & H3) Hsnap. unfold normalizedRange, range, getTime.
  rewrite (clampDate_id (start r)), (clampDate_id (end_ r)) by lia.
  destruct (Z.gtb_spec (start r) (end_ r)); [lia|].
  destruct snap.
  - destruct (Hsnap eq_refl) as [-> ->]. now destruct r.
  - now destruct r.
Qed.

Lemma normalizedRange_idem (min max : Date) (value : option DateRange)
  (snap : bool) (g : Granularity) :
  min <= max -> getFullYear max < -1 \/ 99 < getFullYear min ->
  normalizedRange min max (Some (normalizedRange min max value snap g)) snap g
  = normalizedRange min max value snap g.
Proof.
  intros Hmm Hy. pose proof (literal_years_of_plain min max Hy) as Hl.
  apply normalizedRange_fixed;
    [now apply normalizedRange_in_bounds|].
  intros ->. unfold normalizedRange.
  pose proof (clamped_ordered min max (start (range min max value))
                (end_ (range min max value)) Hmm) as H. cbv zeta in H.
  destruct (if getTime (clampDate (start (range min max value)) min max) >?
               getTime (clampDate (end_ (range min max value)) min max)
            then _ else _) as [s e].
  cbn [fst snd] in H. destruct H as (H1 & H2 & H3). cbn [start end_].
  split; [apply resnap_start|apply resnap_end]; try assumption; lia.
Qed.

(** What a drag frame commits is the normalisation of the range it
    proposes, when the pointer date lies inside the bounds (and, for the
    band, where its window does not round). *)
Lemma onPointerMove_frame_normalizes (min max : Date)
  (value : option DateRange) (snap : bool) (g : Granularity)
  (which : DragTarget) (dateAt : Date) :
  min <= max -> literal_years min max -> min <= dateAt <= max ->
  (which = DragRange -> - 2 ^ 50 <= min /\ max <= 2 ^ 50) ->
  exists proposed : DateRange,
    onPointerMove_frame min max value snap g which dateAt
    = normalizedRange min max (Some proposed) snap g.
Proof.
  intros Hmm Hy Hd Hband.
  pose proof (normalizedRange_in_bounds min max value snap g Hmm Hy) as Hnr.
  pose proof (slideWindow_dates_in_bounds min max value snap g dateAt Hnr)
    as Hw.
  destruct Hnr as (H1 & H2 & H3).
  unfold onPointerMove_frame. destruct which.
  - eexists {| start := dateAt; end_ := _ |}.
    rewrite normalizedRange_spec_steps by assumption.
    apply commitDrag_spec_steps; lia.
  - eexists {| start := _; end_ := dateAt |}.
    rewrite normalizedRange_spec_steps by assumption.
    apply commitDrag_spec_steps; lia.
  - destruct (Hband eq_refl) as [Hlo Hhi].
    destruct (Hw Hlo Hhi ltac:(lia)) as [Hw1 Hw2]. clear Hw.
    destruct (slideWindow min max value snap g dateAt) as [s e2].
    cbn [fst snd] in *.
    eexists {| start := Date_of_number s; end_ := Date_of_number e2 |}.
    rewrite normalizedRange_spec_steps by assumption.
    now apply commitDrag_spec_steps.
Qed.

(** X20. Normalising is idempotent, for bounds [min <= max] with years outside
    -1..99 between them: the normalised range, fed back as [value], is
    shown unchanged. *)
Theorem normalizedRange_idempotent (min max : Date)
  (value : option DateRange) (snap : bool) (g : Granularity) :
  min <= max -> getFullYear max < -1 \/ 99 < getFullYear min ->
  normalizedRange min max (Some (normalizedRange min max value snap g)) snap g
  = normalizedRange min max value snap g.
Proof. exact (normalizedRange_idem min max value snap g). Qed.


(** X22. A granularity switch snaps the selection whether snap is on or off: both
    ends of the committed range are on a boundary of the new granularity or
    on a bound. *)
Theorem granularity_switch_always_snaps (min max : Date)
  (value : option DateRange) (snap : bool) (g newG : Granularity) :
  min <= max -> getFullYear max < -1 \/ 99 < getFullYear min ->
  let r := snd (handleGranularityChange min max value snap g newG) in
  snapped min max newG (start r) /\ snapped min max newG (end_ r).
Proof.
  intros Hmm Hy. pose proof (literal_years_of_plain min max Hy) as Hl.
  pose proof (normalizedRange_in_bounds min max value snap g Hmm Hl)
    as (H1 & H2 & H3).
  assert (Hs : min <= start (normalizedRange min max value snap g) <= max)
    by lia.
  assert (He : min <= end_ (normalizedRange min max value snap g) <= max)
    by lia.
  destruct Hs as [Hs1 Hs2]. destruct He as [He1 He2].
  apply getFullYear_mono in Hs1, Hs2, He1, He2.
  unfold handleGranularityChange. cbn [snd start end_].
  split; [apply clamp_floor_snapped; unfold literal_year
         |apply clamp_ceil_snapped]; lia.
Qed.

(** ** More on the session *)

Lemma run_app (min max : Date) (snap : bool) (evs1 evs2 : list Event)
  (s : Session) :
  run min max snap s (evs1 ++ evs2)
  = let '(s1, out1) := run min max snap s evs1 in
    let '(s2, out2) := run min max snap s1 evs2 in
    (s2, out1 ++ out2).
Proof.
  revert s. induction evs1 as [|ev evs1 IH]; intros s; cbn [app run].
  - now destruct (run min max snap s evs2).
  - destruct (step min max snap s ev) as [s1 out]. rewrite IH.
    destruct (run min max snap s1 evs1) as [s2 outs].
    destruct (run min max snap s2 evs2) as [s3 outs2].
    now destruct out.
Qed.

(** A burst of moves leaves one pending callback, that of the last move. *)
Lemma moves_pending (min max : Date) (snap : bool) (xs : list Date) :
  forall (s : Session) (which : DragTarget) (x : Date),
    dragging s = Some which ->
    run min max snap s (map PointerMove (xs ++ [x]))
    = ({| dateRange := dateRange s; granularity := granularity s;
          dragging := Some which;
          raf := Some {| frame_dateAt := x; frame_value := dateRange s;
                         frame_granularity := granularity s |} |}, []).
Proof.
  induction xs as [|x0 xs IH]; intros s which x Hd.
  - cbn [app map run step]. rewrite Hd. reflexivity.
  - cbn [app map run step]. rewrite Hd.
    rewrite (IH _ which x) by reflexivity. reflexivity.
Qed.

(** X23. Coalescing: during a drag, any number of moves followed by one animation
    frame commits exactly once, and what it commits is the range of the last
    move. *)
Theorem moves_coalesce_to_last (min max : Date) (snap : bool) (s : Session)
  (which : DragTarget) (xs : list Date) (x : Date) :
  dragging s = Some which ->
  snd (run min max snap s (map PointerMove (xs ++ [x]) ++ [AnimationFrame]))
  = [onPointerMove_frame min max (Some (dateRange s)) snap (granularity s)
       which x].
Proof.
  intros Hd. rewrite run_app, (moves_pending min max snap xs s which x Hd).
  reflexivity.
Qed.

(** X24. Events that a drag does not frame do nothing: with no drag going on and
    no callback pending, pointer moves, pointer releases and animation
    frames commit nothing and leave the state as it is. *)
Theorem idle_pointer_events_do_nothing (min max : Date) (snap : bool)
  (s : Session) (evs : list Event) :
  dragging s = None -> raf s = None ->
  Forall (fun ev => match ev with
                    | PointerMove _ | PointerUp | AnimationFrame => True
                    | _ => False
                    end) evs ->
  run min max snap s evs = (s, []).
Proof.
  intros Hd Hr Hevs. induction Hevs as [|ev evs Hev _ IH]; [reflexivity|].
  cbn [run]. destruct ev; try contradiction; cbn [step].
  - rewrite Hd, IH. reflexivity.
  - assert (E : {| dateRange := dateRange s; granularity := granularity s;
                   dragging := None; raf := raf s |} = s)
      by (destruct s; cbn in *; congruence).
    rewrite E, IH. reflexivity.
  - rewrite Hr, IH. reflexivity.
Qed.

(** ** The plugin and the slicer together *)

Lemma step_dateRange_in_bounds (min max : Date) (snap : bool) (s : Session)
  (ev : Event) :
  min <= max -> literal_years min max ->
  in_bounds min max (dateRange s) ->
  in_bounds min max (dateRange (fst (step min max snap s ev))).
Proof.
  intros Hmm Hy Hs. destruct ev; cbn [step].
  - exact Hs.
  - destruct (dragging s); exact Hs.
  - exact Hs.
  - destruct (raf s) as [f|]; [|exact Hs].
    destruct (dragging s) as [which|]; [|exact Hs].
    cbn [fst dateRange]. unfold onPointerMove_frame.
    destruct which; [| |destruct (slideWindow _ _ _ _ _ _)];
      now apply commitDrag_in_bounds.
  - pose proof (handleGranularityChange_in_bounds min max
                  (Some (dateRange s)) snap (granularity s) g Hmm Hy) as H.
    destruct (handleGranularityChange min max (Some (dateRange s)) snap
                (granularity s) g) as [g' r'].
    cbn [fst snd dateRange] in *. exact H.
Qed.

Lemma run_dateRange_in_bounds (min max : Date) (snap : bool)
  (evs : list Event) (s : Session) :
  min <= max -> literal_years min max ->
  in_bounds min max (dateRange s) ->
  in_bounds min max (dateRange (fst (run min max snap s evs))).
Proof.
  intros Hmm Hy. revert s.
  induction evs as [|ev evs IH]; intros s Hs; cbn [run]; [exact Hs|].
  pose proof (step_dateRange_in_bounds min max snap s ev Hmm Hy Hs) as H.
  destruct (step min max snap s ev) as [s1 out]. cbn [fst] in H.
  specialize (IH s1 H). destruct (run min max snap s1 evs) as [s2 outs].
  exact IH.
Qed.

Section PluginSession.

Variable Cell : Type.
Variable toDate : Cell -> option Date.
Variable argumentLimit : Z.


End PluginSession.

End Host.

(** * Concrete runs, in the time zone UTC ([LocalTZA = 0])

    Dates are written [localMidnight 0 y m dt] (month [m] from 0), so that
    years below 100 can be written too. *)

(** Evaluates closed dates and orders them. *)
Ltac run_dates := vm_compute; repeat split; try discriminate; try reflexivity.

(** C1 at a two-digit year.  Bounds 0050-01-01 to 2000-01-01, raw range
    0050-06-15 to 0150-01-01, month granularity, snap on: [new Date(50, 5, 1)]
    is 1950-06-01, the floor of the start lands after the end, and
    [normalizedRange], which does not swap after its second clamp, returns
    a range with [start > end]. *)
Theorem normalizedRange_inverted_on_two_digit_year :
  let min := localMidnight 0 50 0 1 in
  let max := localMidnight 0 2000 0 1 in
  let raw := {| start := localMidnight 0 50 5 15;
                end_ := localMidnight 0 150 0 1 |} in
  let r := normalizedRange 0 min max (Some raw) true month in
  min <= max
  /\ r = {| start := localMidnight 0 1950 5 1;
            end_ := localMidnight 0 150 0 1 |}
  /\ end_ r < start r
  /\ ~ in_bounds min max r.
Proof.
  run_dates. intros (_ & H & _). apply H. reflexivity.
Qed.

(** C2 at a two-digit year.  Bounds 0050-01-01 to 2000-01-01, raw range
    0050-06-15 to 0150-01-01, month granularity, snap on.  The steps of the
    specification floor the start to 1950-06-01 (the floor of a date of year
    50), keep the end, re-clamp, and end with a re-swap: 0150-01-01 to
    1950-06-01.  [normalizedRange] has no re-swap after its second clamp and
    returns the mirror image, which is not the range of the steps.
    [commitDrag], which has the re-swap, returns the range of the steps on
    the same raw range. *)
Theorem normalizedRange_differs_from_spec_steps_on_two_digit_year :
  let min := localMidnight 0 50 0 1 in
  let max := localMidnight 0 2000 0 1 in
  let raw := {| start := localMidnight 0 50 5 15;
                end_ := localMidnight 0 150 0 1 |} in
  (min <= start raw <= max /\ min <= end_ raw <= max)
  /\ normalize_spec 0 raw min max month true
     = {| start := localMidnight 0 150 0 1; end_ := localMidnight 0 1950 5 1 |}
  /\ normalizedRange 0 min max (Some raw) true month
     = {| start := localMidnight 0 1950 5 1; end_ := localMidnight 0 150 0 1 |}
  /\ normalizedRange 0 min max (Some raw) true month
     <> normalize_spec 0 raw min max month true
  /\ commitDrag 0 min max true month (start raw) (end_ raw)
     = normalize_spec 0 raw min max month true.
Proof. run_dates. Qed.

(** C3 at the turn of year -1 to year 0.  Bounds -0001-01-01 to 0000-12-31,
    day granularity, snap on, raw range from noon of -0001-12-30 to noon of
    -0001-12-31: the end is ceiled to 0000-01-01, which is strictly inside
    the bounds and is no fixed point of the floor, since
    [new Date(0, 0, 1)] is 1900-01-01.  The drag commit returns the same
    range. *)
Theorem normalizedRange_end_off_boundary_at_year_zero :
  let min := localMidnight 0 (-1) 0 1 in
  let max := localMidnight 0 0 11 31 in
  let raw := {| start := localMidnight 0 (-1) 11 30 + 43200000;
                end_ := localMidnight 0 (-1) 11 31 + 43200000 |} in
  let r := normalizedRange 0 min max (Some raw) true day in
  min <= max
  /\ r = {| start := localMidnight 0 (-1) 11 30;
            end_ := localMidnight 0 0 0 1 |}
  /\ commitDrag 0 min max true day (start raw) (end_ raw) = r
  /\ floorToGranularity 0 (end_ r) day = localMidnight 0 1900 0 1
  /\ ~ snapped 0 min max day (end_ r).
Proof.
  run_dates. intros [H|[H|H]]; discriminate H.
Qed.


(** C7 as stated fails.  Bounds 0 to 1000 ms, [d] = 7: [toPct] computes the
    double nearest to 0.7, which is below 0.7; [fromPct] divides it by 100,
    multiplies by 1000 and gets the double just below 7
    (6.99999999999999911182158029987), which [new Date] truncates to 6. *)
Lemma round_trip_loses_a_millisecond :
  (0 <= 7 <= 1000)
  /\ toPct 0 1000 7 = (3152519739159347 # 4503599627370496)%Q
  /\ Number.add 0
       (Number.multiply (Number.divide (toPct 0 1000 7) 100) (total 0 1000))
     = (7881299347898367 # 1125899906842624)%Q
  /\ fromPct 0 1000 (toPct 0 1000 7) = 6
  /\ fromPct 0 1000 (toPct 0 1000 7) <> 7.
Proof. vm_compute. repeat split; try discriminate; reflexivity. Qed.

(** C6 at a two-digit year: the month floor of 0050-06-15 is 1950-06-01,
    nineteen centuries after the date. *)
Theorem floorToGranularity_above_date_on_two_digit_year :
  let d := localMidnight 0 50 5 15 in
  getFullYear 0 d = 50
  /\ floorToGranularity 0 d month = localMidnight 0 1950 5 1
  /\ d < floorToGranularity 0 d month
  /\ ~ (floorToGranularity 0 d month <= d <= ceilToGranularity 0 d month).
Proof.
  run_dates. intros [H _]. apply H. reflexivity.
Qed.

(** C8: the pointer is released before the frame of the last move runs.
    Bounds 2024-01-01 to 2024-12-31, month granularity, snap on, the full
    range selected; the end handle is dragged to 2024-06-15, a frame runs,
    the handle is dragged on to 2024-09-15 and released, and the next frame
    runs.  The only range handed to [onChange] is the one of the first move
    (2024-01-01 to 2024-07-01); the range of the last move (2024-01-01 to
    2024-10-01) is never committed.  With the frame before the release it
    is. *)
Theorem pointer_up_before_frame_drops_last_move :
  let min := newDate 0 2024 0 1 in
  let max := newDate 0 2024 11 31 in
  let s0 := {| dateRange := {| start := min; end_ := max |};
               granularity := month; dragging := None; raf := None |} in
  let first := {| start := min; end_ := newDate 0 2024 6 1 |} in
  let last_ := {| start := min; end_ := newDate 0 2024 9 1 |} in
  snd (run 0 min max true s0
         [PointerDown DragEnd; PointerMove (newDate 0 2024 5 15);
          AnimationFrame; PointerMove (newDate 0 2024 8 15);
          PointerUp; AnimationFrame])
  = [first]
  /\ snd (run 0 min max true s0
            [PointerDown DragEnd; PointerMove (newDate 0 2024 5 15);
             AnimationFrame; PointerMove (newDate 0 2024 8 15);
             AnimationFrame; PointerUp])
     = [first; last_]
  /\ first <> last_.
Proof. run_dates. Qed.

(** C9 at a two-digit year.  Bounds 0050-01-01 to 2000-01-01, selection
    0050-06-15 to 0150-01-01, snap on; switching from day to month hands
    1950-06-01 to 0150-01-01 to [onChange]: [start > end]. *)
Theorem granularity_switch_inverted_on_two_digit_year :
  let min := localMidnight 0 50 0 1 in
  let max := localMidnight 0 2000 0 1 in
  let s := {| dateRange := {| start := localMidnight 0 50 5 15;
                              end_ := localMidnight 0 150 0 1 |};
              granularity := day; dragging := None; raf := None |} in
  let r := {| start := localMidnight 0 1950 5 1;
              end_ := localMidnight 0 150 0 1 |} in
  min <= max
  /\ snd (step 0 min max true s (GranularityClick month)) = Some r
  /\ end_ r < start r
  /\ ~ in_bounds min max r.
Proof.
  run_dates. intros (_ & H & _). apply H. reflexivity.
Qed.

(** ** The theorems with hypotheses, at concrete inputs *)


(** [round_trip_within_a_millisecond] on the bounds 2024-01-01 to
    2024-12-31: 2024-06-15 comes back as it is, and so does one millisecond
    after 2024-01-01. *)
Lemma round_trip_within_a_millisecond_witness :
  let min := newDate 0 2024 0 1 in
  let max := newDate 0 2024 11 31 in
  let d := min + 1 in
  (- 2 ^ 48 <= min /\ max <= 2 ^ 48 /\ min <= d <= max)
  /\ fromPct min max (toPct min max (newDate 0 2024 5 15))
     = newDate 0 2024 5 15
  /\ fromPct min max (toPct min max d) = d
  /\ Z.abs (fromPct min max (toPct min max d) - d) <= 1.
Proof.
  cbv zeta. split; [vm_compute; repeat split; discriminate|].
  split; [vm_compute; reflexivity|]. split; [vm_compute; reflexivity|].
  apply (round_trip_within_a_millisecond (newDate 0 2024 0 1)
           (newDate 0 2024 11 31) (newDate 0 2024 0 1 + 1)).
  - vm_compute. discriminate.
  - vm_compute. discriminate.
  - vm_compute. split; discriminate.
Defined.

(** [granularity_switch_resnaps] at the scenario of the specification, with
    [min] = 2024-01-01. *)
Lemma granularity_switch_resnaps_witness :
  newDate 0 2024 0 1 <= newDate 0 2024 0 1
  /\ handleGranularityChange 0 (newDate 0 2024 0 1) (newDate 0 2024 11 31)
       (Some {| start := newDate 0 2024 2 5; end_ := newDate 0 2024 2 8 |})
       true day year
     = (year, {| start := newDate 0 2024 0 1; end_ := newDate 0 2024 11 31 |}).
Proof.
  split; [vm_compute; discriminate|].
  apply (proj2 (granularity_switch_resnaps 0) (newDate 0 2024 0 1) true).
  vm_compute. discriminate.
Defined.

(** [value_defaults_to_bounds] at the bounds 2024-01-01 to 2024-12-31. *)
Lemma value_defaults_to_bounds_witness :
  let min := newDate 0 2024 0 1 in
  let max := newDate 0 2024 11 31 in
  min <= max
  /\ normalizedRange 0 min max None true month
     = normalize_spec 0 {| start := min; end_ := max |} min max month true.
Proof.
  cbv zeta. split; [vm_compute; discriminate|].
  apply (value_defaults_to_bounds 0 (newDate 0 2024 0 1)
           (newDate 0 2024 11 31) true month).
  vm_compute. discriminate.
Defined.

(** ** The scenarios of the specification *)

(** Bounds 2024-01-01 to 2024-12-31, month granularity, snap on: the raw
    range 2024-03-15 to 2024-03-20 is normalised to 2024-03-01 to
    2024-04-01. *)
Example scenario_normalize_month :
  normalizedRange 0 (newDate 0 2024 0 1) (newDate 0 2024 11 31)
    (Some {| start := newDate 0 2024 2 15; end_ := newDate 0 2024 2 20 |})
    true month
  = {| start := newDate 0 2024 2 1; end_ := newDate 0 2024 3 1 |}.
Proof. vm_compute. reflexivity. Qed.

(** Dragging the end handle to a date before the current start: the
    committed range is swapped into order. *)
Example scenario_end_handle_before_start :
  onPointerMove_frame 0 (newDate 0 2024 0 1) (newDate 0 2024 11 31)
    (Some {| start := newDate 0 2024 5 1; end_ := newDate 0 2024 8 1 |})
    true month DragEnd (newDate 0 2024 2 15)
  = {| start := newDate 0 2024 2 1; end_ := newDate 0 2024 5 1 |}.
Proof. vm_compute. reflexivity. Qed.

(** Band drag with the pointer on [max] and a selection of 61 days, snap
    off: the window stops at [max] and keeps its length. *)
Example scenario_band_drag_at_max :
  onPointerMove_frame 0 (newDate 0 2024 0 1) (newDate 0 2024 11 31)
    (Some {| start := newDate 0 2024 2 1; end_ := newDate 0 2024 4 1 |})
    false month DragRange (newDate 0 2024 11 31)
  = {| start := newDate 0 2024 9 31; end_ := newDate 0 2024 11 31 |}.
Proof. vm_compute. reflexivity. Qed.

(** A window of odd span astride the epoch loses a millisecond to the
    truncation of its two half-millisecond ends: bounds -10 to 10, selection
    -1 to 2, snap off, pointer on 0. *)
Example band_drag_odd_span_astride_epoch :
  onPointerMove_frame 0 (-10) 10 (Some {| start := -1; end_ := 2 |})
    false day DragRange 0
  = {| start := -1; end_ := 1 |}.
Proof. vm_compute. reflexivity. Qed.

(** Beyond 2^52 ms (4503599627370496) the doubles are whole milliseconds,
    and the two half-millisecond ends of a window of odd span round to even:
    bounds 2^52 to 2^52 + 100, a selection of span 3, snap off, pointer on
    4503599627370500.  The ends 4503599627370498.5 and 4503599627370501.5
    are computed as 4503599627370498 and 4503599627370502: the span is 4. *)
Example band_drag_rounds_beyond_2_52 :
  let min := 4503599627370496 in
  let max := 4503599627370596 in
  let value := Some {| start := 4503599627370506;
                       end_ := 4503599627370509 |} in
  let r :=
    onPointerMove_frame 0 min max value false day DragRange
      4503599627370500 in
  normalizedRange 0 min max value false day
  = {| start := 4503599627370506; end_ := 4503599627370509 |}
  /\ r = {| start := 4503599627370498; end_ := 4503599627370502 |}
  /\ end_ r - start r = 4.
Proof. vm_compute. repeat split; reflexivity. Qed.

(** ** The plugin and the stripes, at concrete inputs

    Columns of numbers: a cell is a time value, and [Some] reads every cell
    as a valid date; [fun _ => None] reads none.  The engine accepts 65535
    arguments in one call. *)

(** [minMaxDates_extremes] on the column 30, 10, 20: the bounds are 10 and
    30. *)
Lemma minMaxDates_extremes_witness :
  let cells := [30; 10; 20] in
  (In 30 cells /\ Z.of_nat (List.length (validDates Z Some cells)) <= 65535)
  /\ exists minDate maxDate,
       minMaxDates 0 Z Some 65535 (Some cells) = Some (minDate, maxDate)
       /\ (exists c, In c cells /\ Some c = Some minDate)
       /\ (exists c, In c cells /\ Some c = Some maxDate)
       /\ (forall c d,
             In c cells -> Some c = Some d -> minDate <= d <= maxDate).
Proof.
  cbv zeta. split.
  - split; [now left|vm_compute; discriminate].
  - apply (minMaxDates_extremes 0 Z Some 65535 [30; 10; 20] 30 30).
    + now left.
    + reflexivity.
    + vm_compute. discriminate.
Defined.

(** The same column on an engine that accepts two arguments: the spread
    call throws, and the memo returns no bounds. *)
Example minMaxDates_beyond_argument_limit :
  minMaxDates 0 Z Some 2 (Some [30; 10; 20]) = None.
Proof. reflexivity. Qed.

(** [minMaxDates_fallback] on a column of two cells that are no dates. *)
Lemma minMaxDates_fallback_witness :
  minMaxDates 0 Z (fun _ => None) 65535 (Some [1; 2])
  = Some (newDate 0 2024 0 1, newDate 0 2024 11 31).
Proof.
  apply (minMaxDates_fallback 0 Z (fun _ => None) 65535 (Some [1; 2])).
  intros cells c _ _. reflexivity.
Defined.

(** [filteredData_full_range] on the column 30, 10, 20: the bounds are 10
    and 30, and the three rows are shown. *)
Lemma filteredData_full_range_witness :
  let cells := [30; 10; 20] in
  let r0 := {| start := 10; end_ := 30 |} in
  minMaxDates 0 Z Some 65535 (Some cells) = Some (10, 30)
  /\ filteredData Z Some (Some cells) r0 = [0%nat; 1%nat; 2%nat]
  /\ reclampRange r0 10 30 = r0
  /\ (In 1%nat (filteredData Z Some (Some cells) r0)
      <-> exists c d, nth_error cells 1 = Some c /\ Some c = Some d).
Proof.
  cbv zeta. split; [reflexivity|]. split; [reflexivity|].
  apply (filteredData_full_range 0 Z Some 65535 [30; 10; 20] 1%nat 10 30).
  reflexivity.
Defined.

(** [filteredData_monotone] on the column 5, 15, 25: the selection 10..20
    keeps row 1, the wider selection 0..30 keeps all three rows. *)
Lemma filteredData_monotone_witness :
  let col := Some [5; 15; 25] in
  let r := {| start := 10; end_ := 20 |} in
  let r' := {| start := 0; end_ := 30 |} in
  (start r' <= start r /\ end_ r <= end_ r')
  /\ filteredData Z Some col r = [1%nat]
  /\ filteredData Z Some col r' = [0%nat; 1%nat; 2%nat]
  /\ incl (filteredData Z Some col r) (filteredData Z Some col r').
Proof.
  cbv zeta. split; [cbn; lia|]. split; [reflexivity|]. split; [reflexivity|].
  apply (filteredData_monotone Z Some (Some [5; 15; 25])
           {| start := 10; end_ := 20 |} {| start := 0; end_ := 30 |});
    cbn; lia.
Defined.

(** [reclampRange_in_bounds]: the selection 5..50 under the new bounds
    10..40 becomes 10..40. *)
Lemma reclampRange_in_bounds_witness :
  let prev := {| start := 5; end_ := 50 |} in
  let r := reclampRange prev 10 40 in
  10 <= 40
  /\ r = {| start := 10; end_ := 40 |}
  /\ ((10 <= start r <= 40 /\ 10 <= end_ r <= 40)
      /\ (start prev <= end_ prev -> start r <= end_ r)).
Proof.
  cbv zeta. split; [lia|]. split; [reflexivity|].
  apply (reclampRange_in_bounds {| start := 5; end_ := 50 |} 10 40). lia.
Defined.

(** [reclampRange_stable]: the selection 15..30 lies inside the bounds 10..40
    and is kept. *)
Lemma reclampRange_stable_witness :
  let prev := {| start := 15; end_ := 30 |} in
  10 <= 40
  /\ reclampRange prev 10 40 = prev
  /\ reclampRange (reclampRange prev 10 40) 10 40 = reclampRange prev 10 40.
Proof.
  cbv zeta. split; [lia|].
  destruct (reclampRange_stable {| start := 15; end_ := 30 |} 10 40)
    as [Hfix Hidem]; [lia|].
  split; [apply Hfix; cbn; lia|exact Hidem].
Defined.

(** [reclampRange_outside_resets]: the selection 50..60 lies after the new
    bounds 10..40 and becomes 10..40. *)
Lemma reclampRange_outside_resets_witness :
  let prev := {| start := 50; end_ := 60 |} in
  (start prev <= end_ prev /\ (end_ prev < 10 \/ 40 < start prev) /\ 10 <= 40)
  /\ reclampRange prev 10 40 = {| start := 10; end_ := 40 |}.
Proof.
  cbv zeta. split; [cbn; lia|].
  apply (reclampRange_outside_resets {| start := 50; end_ := 60 |} 10 40);
    cbn; lia.
Defined.

(** [formatShort_names_period]: 2024-03-15 and 2024-03-20 carry the month
    label 2024-03 and have the same month floor. *)
Lemma formatShort_names_period_witness :
  let d := newDate 0 2024 2 15 in
  let d' := newDate 0 2024 2 20 in
  (literal_year (getFullYear 0 d) /\ literal_year (getFullYear 0 d'))
  /\ formatShort 0 d month = "2024-03"%string
  /\ formatShort 0 d day = "2024-03-15"%string
  /\ formatShort 0 d quarter = "2024 Q1"%string
  /\ (formatShort 0 d month = formatShort 0 d' month
      <-> floorToGranularity 0 d month = floorToGranularity 0 d' month).
Proof.
  cbv zeta. split; [split; right; vm_compute; reflexivity|].
  split; [vm_compute; reflexivity|]. split; [vm_compute; reflexivity|].
  split; [vm_compute; reflexivity|].
  apply (formatShort_names_period 0 (newDate 0 2024 2 15)
           (newDate 0 2024 2 20) month);
    right; vm_compute; reflexivity.
Defined.

(** [stripes_increasing]: bounds 2024-01-15 to 2024-04-10 by month; the
    stripes are the first of January, February, March and April. *)
Lemma stripes_increasing_witness :
  let min := newDate 0 2024 0 15 in
  let max := newDate 0 2024 3 10 in
  floorToGranularity 0 min month <= max
  /\ stripes 0 min max month
     = [newDate 0 2024 0 1; newDate 0 2024 1 1; newDate 0 2024 2 1;
        newDate 0 2024 3 1]
  /\ exists rest,
       stripes 0 min max month = floorToGranularity 0 min month :: rest.
Proof.
  cbv zeta. split; [vm_compute; discriminate|].
  split; [vm_compute; reflexivity|].
  destruct (stripes_increasing 0 (newDate 0 2024 0 15) (newDate 0 2024 3 10)
              month) as (_ & _ & _ & H & _).
  apply H. vm_compute. discriminate.
Defined.

(** [stripes_at_boundaries]: with the same bounds there is a stripe on the
    first of March. *)
Lemma stripes_at_boundaries_witness :
  let min := newDate 0 2024 0 15 in
  let max := newDate 0 2024 3 10 in
  let d := newDate 0 2024 2 1 in
  (min <= max /\ (getFullYear 0 max < -1 \/ 99 < getFullYear 0 min))
  /\ (In d (stripes 0 min max month)
      <-> floorToGranularity 0 min month <= d <= max /\ on_boundary 0 d month).
Proof.
  cbv zeta. split.
  - split; [vm_compute; discriminate|right; vm_compute; reflexivity].
  - apply (stripes_at_boundaries 0 (newDate 0 2024 0 15) (newDate 0 2024 3 10)
             month (newDate 0 2024 2 1)).
    + vm_compute. discriminate.
    + right. vm_compute. reflexivity.
Defined.

(** ** Floor, ceil and the normalisation, at concrete inputs *)

(** [floor_idempotent] on 2024-03-15, 13:00, by month. *)
Lemma floor_idempotent_witness :
  let d := newDate 0 2024 2 15 + 13 * 3600000 in
  literal_year (getFullYear 0 d)
  /\ floorToGranularity 0 d month = newDate 0 2024 2 1
  /\ floorToGranularity 0 (floorToGranularity 0 d month) month
     = floorToGranularity 0 d month.
Proof.
  cbv zeta. split; [right; vm_compute; reflexivity|].
  split; [vm_compute; reflexivity|].
  apply (floor_idempotent 0 (newDate 0 2024 2 15 + 13 * 3600000) month).
  right. vm_compute. reflexivity.
Defined.

(** [floor_monotone] on 2024-03-15 and 2024-05-02, by quarter. *)
Lemma floor_monotone_witness :
  let d1 := newDate 0 2024 2 15 in
  let d2 := newDate 0 2024 4 2 in
  (literal_year (getFullYear 0 d1) /\ literal_year (getFullYear 0 d2)
   /\ d1 <= d2)
  /\ floorToGranularity 0 d1 quarter <= floorToGranularity 0 d2 quarter.
Proof.
  cbv zeta. split.
  - split; [right; vm_compute; reflexivity|].
    split; [right; vm_compute; reflexivity|vm_compute; discriminate].
  - apply (floor_monotone 0 (newDate 0 2024 2 15) (newDate 0 2024 4 2)
             quarter).
    + right. vm_compute. reflexivity.
    + right. vm_compute. reflexivity.
    + vm_compute. discriminate.
Defined.

(** [floor_ceil_nearest_boundaries]: the month boundary 2024-04-01 is at or
    after 2024-03-15, so the ceil of that date is at or before it. *)
Lemma floor_ceil_nearest_boundaries_witness :
  let d := newDate 0 2024 2 15 in
  let b := newDate 0 2024 3 1 in
  ((getFullYear 0 d < -1 \/ 99 < getFullYear 0 d)
   /\ (getFullYear 0 b < -1 \/ 99 < getFullYear 0 b)
   /\ on_boundary 0 b month /\ d <= b)
  /\ ceilToGranularity 0 d month <= b.
Proof.
  cbv zeta. split.
  - split; [right; vm_compute; reflexivity|].
    split; [right; vm_compute; reflexivity|].
    split; [vm_compute; reflexivity|vm_compute; discriminate].
  - destruct (floor_ceil_nearest_boundaries 0 (newDate 0 2024 2 15)
                (newDate 0 2024 3 1) month) as [_ H].
    + right. vm_compute. reflexivity.
    + right. vm_compute. reflexivity.
    + vm_compute. reflexivity.
    + apply H. vm_compute. discriminate.
Defined.

(** [startOf_nested] on 2024-05-17, 13:00: the starts are 2024-01-01,
    2024-04-01, 2024-05-01 and 2024-05-17. *)
Lemma startOf_nested_witness :
  let d := newDate 0 2024 4 17 + 13 * 3600000 in
  literal_year (getFullYear 0 d)
  /\ (startOfYear 0 d = newDate 0 2024 0 1
      /\ startOfQuarter 0 d = newDate 0 2024 3 1
      /\ startOfMonth 0 d = newDate 0 2024 4 1
      /\ startOfDay 0 d = newDate 0 2024 4 17)
  /\ startOfYear 0 d <= startOfQuarter 0 d
  /\ startOfQuarter 0 d <= startOfMonth 0 d
  /\ startOfMonth 0 d <= startOfDay 0 d /\ startOfDay 0 d <= d.
Proof.
  cbv zeta. split; [right; vm_compute; reflexivity|].
  split; [vm_compute; repeat split; reflexivity|].
  apply (startOf_nested 0 (newDate 0 2024 4 17 + 13 * 3600000)).
  right. vm_compute. reflexivity.
Defined.

(** [normalizedRange_idempotent]: bounds 2024-01-01 to 2024-12-31, month
    granularity, snap on, raw range 2024-03-15 to 2024-03-20. *)
Lemma normalizedRange_idempotent_witness :
  let min := newDate 0 2024 0 1 in
  let max := newDate 0 2024 11 31 in
  let value := Some {| start := newDate 0 2024 2 15;
                       end_ := newDate 0 2024 2 20 |} in
  (min <= max /\ (getFullYear 0 max < -1 \/ 99 < getFullYear 0 min))
  /\ normalizedRange 0 min max
       (Some (normalizedRange 0 min max value true month)) true month
     = normalizedRange 0 min max value true month.
Proof.
  cbv zeta. split.
  - split; [vm_compute; discriminate|right; vm_compute; reflexivity].
  - apply (normalizedRange_idempotent 0 (newDate 0 2024 0 1)
             (newDate 0 2024 11 31)
             (Some {| start := newDate 0 2024 2 15;
                      end_ := newDate 0 2024 2 20 |}) true month).
    + vm_compute. discriminate.
    + right. vm_compute. reflexivity.
Defined.


(** [granularity_switch_always_snaps]: snap off, the selection 2024-03-15 to
    2024-03-20 by day, switched to month. *)
Lemma granularity_switch_always_snaps_witness :
  let min := newDate 0 2024 0 1 in
  let max := newDate 0 2024 11 31 in
  let value := Some {| start := newDate 0 2024 2 15;
                       end_ := newDate 0 2024 2 20 |} in
  let r := snd (handleGranularityChange 0 min max value false day month) in
  (min <= max /\ (getFullYear 0 max < -1 \/ 99 < getFullYear 0 min))
  /\ r = {| start := newDate 0 2024 2 1; end_ := newDate 0 2024 3 1 |}
  /\ snapped 0 min max month (start r) /\ snapped 0 min max month (end_ r).
Proof.
  cbv zeta. split.
  - split; [vm_compute; discriminate|right; vm_compute; reflexivity].
  - split; [vm_compute; reflexivity|].
    apply (granularity_switch_always_snaps 0 (newDate 0 2024 0 1)
             (newDate 0 2024 11 31)
             (Some {| start := newDate 0 2024 2 15;
                      end_ := newDate 0 2024 2 20 |}) false day month).
    + vm_compute. discriminate.
    + right. vm_compute. reflexivity.
Defined.

(** ** The session, at concrete inputs *)

(** [moves_coalesce_to_last]: the end handle is held; moves to 2024-06-15 and
    then to 2024-09-15 are followed by one frame, which commits 2024-01-01 to
    2024-10-01 and nothing else. *)
Lemma moves_coalesce_to_last_witness :
  let min := newDate 0 2024 0 1 in
  let max := newDate 0 2024 11 31 in
  let s := {| dateRange := {| start := min; end_ := max |};
              granularity := month; dragging := Some DragEnd; raf := None |} in
  dragging s = Some DragEnd
  /\ snd (run 0 min max true s
            [PointerMove (newDate 0 2024 5 15);
             PointerMove (newDate 0 2024 8 15); AnimationFrame])
     = [{| start := min; end_ := newDate 0 2024 9 1 |}].
Proof.
  cbv zeta. split; [reflexivity|].
  refine (eq_trans
            (moves_coalesce_to_last 0 (newDate 0 2024 0 1)
               (newDate 0 2024 11 31) true
               {| dateRange := {| start := newDate 0 2024 0 1;
                                  end_ := newDate 0 2024 11 31 |};
                  granularity := month; dragging := Some DragEnd;
                  raf := None |}
               DragEnd [newDate 0 2024 5 15] (newDate 0 2024 8 15)
               eq_refl) _).
  vm_compute. reflexivity.
Defined.

(** [idle_pointer_events_do_nothing]: with no drag going on, a move, a
    release and a frame commit nothing. *)
Lemma idle_pointer_events_do_nothing_witness :
  let min := newDate 0 2024 0 1 in
  let max := newDate 0 2024 11 31 in
  let s := {| dateRange := {| start := min; end_ := max |};
              granularity := month; dragging := None; raf := None |} in
  (dragging s = None /\ raf s = None)
  /\ run 0 min max true s
       [PointerMove (newDate 0 2024 5 15); PointerUp; AnimationFrame]
     = (s, []).
Proof.
  cbv zeta. split; [split; reflexivity|].
  apply (idle_pointer_events_do_nothing 0 (newDate 0 2024 0 1)
           (newDate 0 2024 11 31) true).
  - reflexivity.
  - reflexivity.
  - repeat constructor.
Defined.

